(** * The MyC lexical analyzer (lexical_analyzer.py)

    A shallow embedding of the scanner of [lexical_analyzer.py] and the
    properties of its token stream, position tracking and symbol table.

    Conventions of the embedding:
    - a Python [str] is a [string]; a character is an [ascii], read as the
      code point 0..255, and the character classes [isspace], [isdigit],
      [isalpha] and [isalnum] are Python's [str] methods on these code
      points;
    - the scanner object is the record [LexicalAnalyzer]; every method
      takes the object and returns the updated one, and a raised
      [LexicalError] is returned next to the state the object was left in;
    - the text still to be read, [self.source[self.position:]], is
      [remaining self]; a [while] loop that reads [self.source[self.position]]
      and then increments [self.position] recurses over that text;
    - [next_token] calls itself after every comment, and the interpreter
      raises [RecursionError] when a call would nest deeper than its
      recursion limit allows: [next_token_fuel depth] is the call on a
      call stack with room for [depth] nested calls of [next_token], and
      its [None] is that [RecursionError]; [next_token] is the call on a
      stack deep enough for the text that is left, which always has a
      result ([next_token_total]) and gives the result of every call
      whose limit is not hit ([next_token_fuel_agrees]);
    - [analyze] loops until the end-of-input token: the loop takes a count
      of remaining rounds, started above the number of unread characters
      and shown never to run out ([analyze_total], [analyze_limit_total]);
      [analyze] makes its calls of [next_token] on a stack deep enough,
      [analyze_limit depth] with room for [depth] nested calls;
    - console output ([print], [print_table]) is left out. *)

From Stdlib Require Import Ascii String.
From stdpp Require Import base option list strings gmap.

(** ** Strings and characters *)

(** [s[n:]] *)
Fixpoint str_from (n : nat) (s : string) : string :=
  match n, s with
  | 0, _ => s
  | S n', String _ s' => str_from n' s'
  | S _, EmptyString => EmptyString
  end.

(** [s.endswith(suffix)] *)
Definition endswith (s suffix : string) : bool :=
  String.eqb (str_from (String.length s - String.length suffix) s) suffix.

Definition code_in (lo hi : nat) (c : ascii) : bool :=
  Nat.leb lo (nat_of_ascii c) && Nat.leb (nat_of_ascii c) hi.

(** [str.isspace], [str.isdigit], [str.isalpha], [str.isalnum] on the
    code points 0..255. *)
Definition isspace (c : ascii) : bool :=
  code_in 9 13 c || code_in 28 32 c || code_in 133 133 c || code_in 160 160 c.

Definition isdigit (c : ascii) : bool :=
  code_in 48 57 c || code_in 178 179 c || code_in 185 185 c.

Definition isalpha (c : ascii) : bool :=
  code_in 65 90 c || code_in 97 122 c || code_in 170 170 c
  || code_in 181 181 c || code_in 186 186 c || code_in 192 214 c
  || code_in 216 246 c || code_in 248 255 c.

Definition isalnum (c : ascii) : bool :=
  isalpha c || isdigit c || code_in 188 190 c.

Definition newline : ascii := "010"%char.

(** A dict literal with string keys: [k in d] and [d[k]]. *)
Fixpoint dict_get {V : Type} (d : list (string * V)) (k : string) : option V :=
  match d with
  | [] => None
  | (k', v) :: d' => if String.eqb k' k then Some v else dict_get d' k
  end.

(** ** Tokens *)

Inductive TokenType : Set :=
  | LPAREN | RPAREN | LBRACE | RBRACE | COMMA | SEMICOLON
  | PLUS | MINUS | STAR | SLASH | PERCENT | LESS | GREATER | EQUAL | BANG
  | LBRACKET | RBRACKET
  | LE | GE | EQ | NE | OR | AND
  | IF | ELSE | WHILE | FOR | RETURN | BREAK | NEW | SIZE
  | VOID | BOOL | INT | FLOAT
  | BOOL_LIT | INT_LIT | FLOAT_LIT | IDENTIFIER
  | EOF.

#[global] Instance TokenType_eq_dec : EqDecision TokenType.
Proof. solve_decision. Defined.

(** The value of each member of the enumeration. *)
Definition TokenType_value (t : TokenType) : string :=
  match t with
  | LPAREN => "(" | RPAREN => ")" | LBRACE => "{" | RBRACE => "}"
  | COMMA => "," | SEMICOLON => ";"
  | PLUS => "+" | MINUS => "-" | STAR => "*" | SLASH => "/" | PERCENT => "%"
  | LESS => "<" | GREATER => ">" | EQUAL => "=" | BANG => "!"
  | LBRACKET => "[" | RBRACKET => "]"
  | LE => "<=" | GE => ">=" | EQ => "==" | NE => "!=" | OR => "||" | AND => "&&"
  | IF => "if" | ELSE => "else" | WHILE => "while" | FOR => "for"
  | RETURN => "return" | BREAK => "break" | NEW => "new" | SIZE => "size"
  | VOID => "void" | BOOL => "bool" | INT => "int" | FLOAT => "float"
  | BOOL_LIT => "BOOL_LIT" | INT_LIT => "INT_LIT" | FLOAT_LIT => "FLOAT_LIT"
  | IDENTIFIER => "IDENTIFIER"
  | EOF => "EOF"
  end.

(** The members in definition order, as [for token_type in TokenType]
    visits them. *)
Definition TokenType_members : list TokenType :=
  [ LPAREN; RPAREN; LBRACE; RBRACE; COMMA; SEMICOLON;
    PLUS; MINUS; STAR; SLASH; PERCENT; LESS; GREATER; EQUAL; BANG;
    LBRACKET; RBRACKET;
    LE; GE; EQ; NE; OR; AND;
    IF; ELSE; WHILE; FOR; RETURN; BREAK; NEW; SIZE;
    VOID; BOOL; INT; FLOAT;
    BOOL_LIT; INT_LIT; FLOAT_LIT; IDENTIFIER;
    EOF ].

Record Token : Set := mkToken {
  tok_type : TokenType;
  tok_value : string;
  tok_line : nat;
  tok_column : nat
}.

(** ** Symbol table *)

Record SymbolInfo : Set := mkSymbolInfo {
  info_name : string;
  info_type : string;
  info_is_local : bool;
  info_array_length : Z;
  info_return_type : option string;
  info_param_types : list string;
  info_local_var_count : nat
}.

(** [SymbolInfo(name, type_)] *)
Definition SymbolInfo_init (name type_ : string) : SymbolInfo :=
  {| info_name := name; info_type := type_; info_is_local := true;
     info_array_length := (-1)%Z; info_return_type := None;
     info_param_types := []; info_local_var_count := 0 |}.

Definition set_return_type (info : SymbolInfo) (t : string) : SymbolInfo :=
  {| info_name := info_name info; info_type := info_type info;
     info_is_local := info_is_local info;
     info_array_length := info_array_length info;
     info_return_type := Some t;
     info_param_types := info_param_types info;
     info_local_var_count := info_local_var_count info |}.

Definition set_param_types (info : SymbolInfo) (ts : list string) : SymbolInfo :=
  {| info_name := info_name info; info_type := info_type info;
     info_is_local := info_is_local info;
     info_array_length := info_array_length info;
     info_return_type := info_return_type info;
     info_param_types := ts;
     info_local_var_count := info_local_var_count info |}.

Module SymbolTable.

#[warnings="-register-all"]
Inductive t : Type := mk {
  symbols : gmap string SymbolInfo;
  parent : option t;
  name : string
}.

(** [SymbolTable(name)] *)
Definition init (name : string) : t :=
  {| symbols := ∅; parent := None; name := name |}.

Definition insert (self : t) (name : string) (info : SymbolInfo) : t :=
  {| symbols := <[name := info]> (symbols self);
     parent := parent self;
     name := SymbolTable.name self |}.

Fixpoint lookup (self : t) (name : string) : option SymbolInfo :=
  match self with
  | mk syms par _ =>
      match syms !! name with
      | Some info => Some info
      | None =>
          match par with
          | Some p => lookup p name
          | None => None
          end
      end
  end.

End SymbolTable.

(** ** Errors *)

Record LexicalError : Set := mkLexicalError {
  err_message : string;
  err_line : nat;
  err_column : nat
}.

(** What a call leaves behind: the value it returns or the error it raises. *)
Inductive outcome (A : Type) : Type :=
  | Return (a : A)
  | Raise (e : LexicalError).
Arguments Return {A} a.
Arguments Raise {A} e.

(** ** The analyzer *)

Definition KEYWORDS : list (string * TokenType) :=
  [ ("if", IF); ("else", ELSE); ("while", WHILE); ("for", FOR);
    ("return", RETURN); ("break", BREAK); ("new", NEW); ("size", SIZE);
    ("void", VOID); ("bool", BOOL); ("int", INT); ("float", FLOAT);
    ("true", BOOL_LIT); ("false", BOOL_LIT) ].

Definition OPERATORS : list (string * TokenType) :=
  [ ("<=", LE); (">=", GE); ("==", EQ); ("!=", NE); ("||", OR); ("&&", AND) ].

Record LexicalAnalyzer : Type := mkLexicalAnalyzer {
  source : string;
  position : nat;
  line : nat;
  column : nat;
  tokens : list Token;
  symbol_table : SymbolTable.t
}.

Definition set_position (self : LexicalAnalyzer) (p : nat) : LexicalAnalyzer :=
  {| source := source self; position := p; line := line self;
     column := column self; tokens := tokens self;
     symbol_table := symbol_table self |}.

Definition set_line (self : LexicalAnalyzer) (l : nat) : LexicalAnalyzer :=
  {| source := source self; position := position self; line := l;
     column := column self; tokens := tokens self;
     symbol_table := symbol_table self |}.

Definition set_column (self : LexicalAnalyzer) (c : nat) : LexicalAnalyzer :=
  {| source := source self; position := position self; line := line self;
     column := c; tokens := tokens self;
     symbol_table := symbol_table self |}.

Definition set_tokens (self : LexicalAnalyzer) (ts : list Token) : LexicalAnalyzer :=
  {| source := source self; position := position self; line := line self;
     column := column self; tokens := ts;
     symbol_table := symbol_table self |}.

Definition set_symbol_table (self : LexicalAnalyzer) (st : SymbolTable.t)
  : LexicalAnalyzer :=
  {| source := source self; position := position self; line := line self;
     column := column self; tokens := tokens self;
     symbol_table := st |}.

(** [self.source[self.position:]], the text not yet read. *)
Definition remaining (self : LexicalAnalyzer) : string :=
  str_from (position self) (source self).

Definition read_info : SymbolInfo :=
  set_param_types (set_return_type (SymbolInfo_init "read" "function") "any")
                  ["void"].

Definition write_info : SymbolInfo :=
  set_param_types (set_return_type (SymbolInfo_init "write" "function") "void")
                  ["any"].

Definition initialize_built_in_functions (self : LexicalAnalyzer)
  : LexicalAnalyzer :=
  let self :=
    set_symbol_table self (SymbolTable.insert (symbol_table self) "read" read_info) in
  set_symbol_table self (SymbolTable.insert (symbol_table self) "write" write_info).

(** [LexicalAnalyzer(source_code)] *)
Definition LexicalAnalyzer_init (source_code : string) : LexicalAnalyzer :=
  initialize_built_in_functions
    {| source := source_code; position := 0; line := 1; column := 1;
       tokens := []; symbol_table := SymbolTable.init "global" |}.

(** One turn of a loop that consumes the character [c]: the line and
    column bookkeeping shared by [skip_whitespace] and
    [skip_block_comment], followed by [self.position += 1]. *)
Definition track (c : ascii) (self : LexicalAnalyzer) : LexicalAnalyzer :=
  let self :=
    if Ascii.eqb c newline
    then set_column (set_line self (line self + 1)) 1
    else set_column self (column self + 1) in
  set_position self (position self + 1).

Fixpoint skip_whitespace_loop (rest : string) (self : LexicalAnalyzer)
  : LexicalAnalyzer :=
  match rest with
  | String c rest' =>
      if isspace c then skip_whitespace_loop rest' (track c self) else self
  | EmptyString => self
  end.

Definition skip_whitespace (self : LexicalAnalyzer) : LexicalAnalyzer :=
  skip_whitespace_loop (remaining self) self.

Fixpoint skip_line_comment_loop (rest : string) (self : LexicalAnalyzer)
  : LexicalAnalyzer :=
  match rest with
  | String c rest' =>
      if negb (Ascii.eqb c newline)
      then skip_line_comment_loop rest' (set_position self (position self + 1))
      else self
  | EmptyString => self
  end.

Definition skip_line_comment (self : LexicalAnalyzer) : LexicalAnalyzer :=
  let self := set_position self (position self + 2) in
  skip_line_comment_loop (remaining self) self.

(** The loop runs while two characters are left
    ([self.position < len(self.source) - 1]). *)
Fixpoint skip_block_comment_loop (rest : string) (self : LexicalAnalyzer)
  : outcome unit * LexicalAnalyzer :=
  match rest with
  | String c rest' =>
      match rest' with
      | String c' _ =>
          if Ascii.eqb c "*" && Ascii.eqb c' "/"
          then (Return (), set_position self (position self + 2))
          else skip_block_comment_loop rest' (track c self)
      | EmptyString =>
          (Raise (mkLexicalError "Unterminated block comment"
                                 (line self) (column self)), self)
      end
  | EmptyString =>
      (Raise (mkLexicalError "Unterminated block comment"
                             (line self) (column self)), self)
  end.

Definition skip_block_comment (self : LexicalAnalyzer)
  : outcome unit * LexicalAnalyzer :=
  let self := set_position self (position self + 2) in
  skip_block_comment_loop (remaining self) self.

(** [self.position += 1; self.column += 1] *)
Definition consume (self : LexicalAnalyzer) : LexicalAnalyzer :=
  set_column (set_position self (position self + 1)) (column self + 1).

Fixpoint scan_number_loop (rest : string) (number : string) (is_float : bool)
    (self : LexicalAnalyzer) : string * bool * LexicalAnalyzer :=
  match rest with
  | String char rest' =>
      if isdigit char then
        scan_number_loop rest' (number +:+ String char "") is_float (consume self)
      else if Ascii.eqb char "." && negb is_float then
        scan_number_loop rest' (number +:+ String char "") true (consume self)
      else (number, is_float, self)
  | EmptyString => (number, is_float, self)
  end.

Definition scan_number (self : LexicalAnalyzer)
  : outcome Token * LexicalAnalyzer :=
  let start_column := column self in
  let '(number, is_float, self) :=
    scan_number_loop (remaining self) "" false self in
  if is_float then
    if endswith number "." then
      (Raise (mkLexicalError "Invalid float literal" (line self) start_column),
       self)
    else (Return (mkToken FLOAT_LIT number (line self) start_column), self)
  else (Return (mkToken INT_LIT number (line self) start_column), self).

Fixpoint scan_identifier_loop (rest : string) (identifier : string)
    (self : LexicalAnalyzer) : string * LexicalAnalyzer :=
  match rest with
  | String char rest' =>
      if isalnum char || Ascii.eqb char "_" then
        scan_identifier_loop rest' (identifier +:+ String char "") (consume self)
      else (identifier, self)
  | EmptyString => (identifier, self)
  end.

Definition scan_identifier (self : LexicalAnalyzer)
  : outcome Token * LexicalAnalyzer :=
  let start_column := column self in
  let '(identifier, self) := scan_identifier_loop (remaining self) "" self in
  match dict_get KEYWORDS identifier with
  | Some kw => (Return (mkToken kw identifier (line self) start_column), self)
  | None =>
      let self :=
        match SymbolTable.lookup (symbol_table self) identifier with
        | Some _ => self
        | None =>
            set_symbol_table self
              (SymbolTable.insert (symbol_table self) identifier
                 (SymbolInfo_init identifier "unknown"))
        end in
      (Return (mkToken IDENTIFIER identifier (line self) start_column), self)
  end.

(** The tail of [next_token]: single character tokens. *)
Definition single_character_token (char : ascii) (self : LexicalAnalyzer)
  : outcome Token * LexicalAnalyzer :=
  let self := consume self in
  match List.find (fun token_type =>
                     String.eqb (TokenType_value token_type) (String char ""))
                  TokenType_members with
  | Some token_type =>
      (Return (mkToken token_type (String char "") (line self) (column self - 1)),
       self)
  | None =>
      (Raise (mkLexicalError ("Unexpected character: " +:+ String char "")
                             (line self) (column self - 1)), self)
  end.

(** [next_token] from "Handle numbers" on; [char] is
    [self.source[self.position]] and [rest] the text after it. *)
Definition scan_token (char : ascii) (rest : string) (self : LexicalAnalyzer)
  : outcome Token * LexicalAnalyzer :=
  if isdigit char then scan_number self
  else if isalpha char || Ascii.eqb char "_" then scan_identifier self
  else
    match rest with
    | String char2 _ =>
        let op := String char (String char2 "") in
        match dict_get OPERATORS op with
        | Some op_type =>
            let self :=
              set_column (set_position self (position self + 2))
                         (column self + 2) in
            (Return (mkToken op_type op (line self) (column self - 2)), self)
        | None => single_character_token char self
        end
    | EmptyString => single_character_token char self
    end.

Fixpoint next_token_fuel (fuel : nat) (self : LexicalAnalyzer)
  : option (outcome Token * LexicalAnalyzer) :=
  match fuel with
  | 0 => None
  | S fuel =>
      let self := skip_whitespace self in
      match remaining self with
      | EmptyString =>
          Some (Return (mkToken EOF "" (line self) (column self)), self)
      | String char rest =>
          if Ascii.eqb char "/" then
            match rest with
            | String next_char _ =>
                if Ascii.eqb next_char "/" then
                  next_token_fuel fuel (skip_line_comment self)
                else if Ascii.eqb next_char "*" then
                  match skip_block_comment self with
                  | (Return _, self) => next_token_fuel fuel self
                  | (Raise e, self) => Some (Raise e, self)
                  end
                else Some (scan_token char rest self)
            | EmptyString => Some (scan_token char rest self)
            end
          else Some (scan_token char rest self)
      end
  end.

Definition next_token (self : LexicalAnalyzer)
  : option (outcome Token * LexicalAnalyzer) :=
  next_token_fuel (S (String.length (remaining self))) self.

Fixpoint analyze_fuel (fuel : nat) (self : LexicalAnalyzer)
  : option (outcome (list Token) * LexicalAnalyzer) :=
  match fuel with
  | 0 => None
  | S fuel =>
      match next_token self with
      | None => None
      | Some (Raise e, self) => Some (Raise e, self)
      | Some (Return token, self) =>
          let self := set_tokens self (tokens self ++ [token]) in
          if decide (tok_type token = EOF) then Some (Return (tokens self), self)
          else analyze_fuel fuel self
      end
  end.

Definition analyze (self : LexicalAnalyzer)
  : option (outcome (list Token) * LexicalAnalyzer) :=
  analyze_fuel (S (String.length (remaining self))) self.

(** The sample program of [main]. *)
Definition sample_program : string :=
  String newline
    ("    int main() {" +:+ String newline
    ("        float x = .14;" +:+ String newline
    ("        // This is a comment" +:+ String newline
    ("        if (x <= 5.0) {" +:+ String newline
    ("            /* Multi-line" +:+ String newline
    ("               comment */" +:+ String newline
    ("            return 0;" +:+ String newline
    ("        }" +:+ String newline
    ("        return 1;" +:+ String newline
    ("    }" +:+ String newline
     "    ")))))))))).

(** ** The recursion limit *)

(** The recursion limit of the interpreter, [sys.getrecursionlimit()],
    where it has not been changed: the deepest the call stack gets, so
    that no more calls of [next_token] than this are ever nested. *)
Definition recursion_limit : nat := 1000.

(** What a call comes to on a call stack of bounded depth: the value or
    the [LexicalError] it leaves behind, or the [RecursionError] of the
    interpreter. *)
Inductive limited (A : Type) : Type :=
  | Completed (res : outcome A * LexicalAnalyzer)
  | RecursionError.
Arguments Completed {A} res.
Arguments RecursionError {A}.

(** [analyze] on a call stack with room for [depth] nested calls of
    [next_token]: every round of the loop calls [next_token_fuel depth],
    and a [RecursionError] of that call leaves [analyze], which does not
    catch it. *)
Fixpoint analyze_limit_fuel (depth fuel : nat) (self : LexicalAnalyzer)
  : option (limited (list Token)) :=
  match fuel with
  | 0 => None
  | S fuel =>
      match next_token_fuel depth self with
      | None => Some RecursionError
      | Some (Raise e, self) => Some (Completed (Raise e, self))
      | Some (Return token, self) =>
          let self := set_tokens self (tokens self ++ [token]) in
          if decide (tok_type token = EOF) then
            Some (Completed (Return (tokens self), self))
          else analyze_limit_fuel depth fuel self
      end
  end.

Definition analyze_limit (depth : nat) (self : LexicalAnalyzer)
  : option (limited (list Token)) :=
  analyze_limit_fuel depth (S (String.length (remaining self))) self.

(** * Vocabulary of the properties *)

(** [reads txt self self']: going from [self] to [self'] the cursor moved
    over exactly the text [txt]; the source and the collected tokens are
    untouched. *)
Definition reads (txt : string) (self self' : LexicalAnalyzer) : Prop :=
  source self' = source self ∧ tokens self' = tokens self ∧
  remaining self = txt +:+ remaining self'.

(** The token [tok] carries the text [lexeme] and the line and column the
    cursor of [self] is at. *)
Definition token_at (self : LexicalAnalyzer) (lexeme : string) (tok : Token)
  : Prop :=
  tok_value tok = lexeme ∧ tok_line tok = line self ∧
  tok_column tok = column self.

(** What a call of [next_token] with the result [o] does to the symbol
    table [st]. *)
Definition register (st : SymbolTable.t) (o : outcome Token) : SymbolTable.t :=
  match o with
  | Return tok =>
      if decide (tok_type tok = IDENTIFIER) then
        match SymbolTable.lookup st (tok_value tok) with
        | Some _ => st
        | None =>
            SymbolTable.insert st (tok_value tok)
              (SymbolInfo_init (tok_value tok) "unknown")
        end
      else st
  | Raise _ => st
  end.

(** The calls of [next_token] and what they come to: the end of input,
    a comment followed by another call, an unterminated comment, or a
    token scanned at a significant character. *)
Inductive next_token_spec
  : LexicalAnalyzer → outcome Token * LexicalAnalyzer → Prop :=
  | nt_eof self :
      remaining (skip_whitespace self) = "" →
      next_token_spec self
        (Return (mkToken EOF "" (line (skip_whitespace self))
                                (column (skip_whitespace self))),
         skip_whitespace self)
  | nt_line_comment self rest res :
      remaining (skip_whitespace self) = String "/" (String "/" rest) →
      next_token_spec (skip_line_comment (skip_whitespace self)) res →
      next_token_spec self res
  | nt_block_comment self rest u self1 res :
      remaining (skip_whitespace self) = String "/" (String "*" rest) →
      skip_block_comment (skip_whitespace self) = (Return u, self1) →
      next_token_spec self1 res →
      next_token_spec self res
  | nt_unterminated self rest e self1 :
      remaining (skip_whitespace self) = String "/" (String "*" rest) →
      skip_block_comment (skip_whitespace self) = (Raise e, self1) →
      next_token_spec self (Raise e, self1)
  | nt_scan self char rest :
      remaining (skip_whitespace self) = String char rest →
      (∀ rest', String char rest ≠ String "/" (String "/" rest')) →
      (∀ rest', String char rest ≠ String "/" (String "*" rest')) →
      next_token_spec self (scan_token char rest (skip_whitespace self)).

(** A token whose text starts like a word is a keyword token when the
    text is a keyword and an identifier token otherwise. *)
Definition word_kind (tok : Token) : Prop :=
  ∀ char txt, tok_value tok = String char txt →
    isdigit char = false → isalpha char || Ascii.eqb char "_" = true →
    tok_type tok = default IDENTIFIER (dict_get KEYWORDS (tok_value tok)).

(** What [next_token] guarantees of every token it returns. *)
Definition token_ok (tok : Token) : Prop :=
  (tok_type tok = IDENTIFIER → dict_get KEYWORDS (tok_value tok) = None) ∧
  (tok_type tok = EOF → tok_value tok = "") ∧
  word_kind tok.

(** The symbol table after the tokens [ts] have been returned. *)
Definition registered (st : SymbolTable.t) (ts : list Token) : SymbolTable.t :=
  foldl (λ st tok, register st (Return tok)) st ts.

(** Every character of [s] satisfies [P]. *)
Fixpoint str_forall (P : ascii → bool) (s : string) : bool :=
  match s with
  | EmptyString => true
  | String c s' => P c && str_forall P s'
  end.

(** The text contains the closer [*/]. *)
Fixpoint has_close (s : string) : bool :=
  match s with
  | String c s' =>
      match s' with
      | String c' _ => (Ascii.eqb c "*" && Ascii.eqb c' "/") || has_close s'
      | EmptyString => false
      end
  | EmptyString => false
  end.

(** A line comment runs to the end of its line: what follows it is the
    end of the text or a newline. *)
Definition line_end (s : string) : Prop :=
  s = "" ∨ ∃ s', s = String newline s'.

(** Texts made of whitespace, line comments and block comments only. *)
Inductive insignificant : string → Prop :=
  | ins_end : insignificant ""
  | ins_space c s :
      isspace c = true → insignificant s → insignificant (String c s)
  | ins_line_comment body s :
      str_forall (λ c, negb (Ascii.eqb c newline)) body = true →
      line_end s → insignificant s →
      insignificant ("//" +:+ body +:+ s)
  | ins_block_comment body s :
      has_close body = false → insignificant s →
      insignificant ("/*" +:+ body +:+ "*/" +:+ s).



(** The state after [n] further characters of one line were consumed. *)
Definition advance (n : nat) (self : LexicalAnalyzer) : LexicalAnalyzer :=
  set_column (set_position self (position self + n)) (column self + n).

(** The text starts with a character that satisfies [P]. *)
Definition next_is (P : ascii → bool) (s : string) : bool :=
  match s with
  | String c _ => P c
  | EmptyString => false
  end.

(** The 1-based line and column of the character that follows the text
    [prefix] at the start of a source: a newline starts a line at column
    1, any other character takes one column. *)
Fixpoint line_column_from (line column : nat) (prefix : string) : nat * nat :=
  match prefix with
  | EmptyString => (line, column)
  | String c prefix' =>
      if Ascii.eqb c newline then line_column_from (line + 1) 1 prefix'
      else line_column_from line (column + 1) prefix'
  end.

Definition line_column_after (prefix : string) : nat * nat :=
  line_column_from 1 1 prefix.

(** The kinds of the tokens of a full scan that returned. *)
Definition kinds (r : option (outcome (list Token) * LexicalAnalyzer))
  : option (list TokenType) :=
  match r with
  | Some (Return ts, _) => Some (map tok_type ts)
  | _ => None
  end.

(** [n + 1] calls of [next_token] in a row, as a driver loop makes them:
    the result of the last call, or the first error. *)
Fixpoint next_token_again (n : nat) (self : LexicalAnalyzer)
  : option (outcome Token * LexicalAnalyzer) :=
  match n with
  | 0 => next_token self
  | S n =>
      match next_token self with
      | Some (Return _, self) => next_token_again n self
      | r => r
      end
  end.

(** [tok] is an identifier token of the name [n]. *)
Definition identifier_of (n : string) (tok : Token) : Prop :=
  tok_type tok = IDENTIFIER ∧ tok_value tok = n.

(** * Vocabulary of the further properties *)

(** The scopes of a table, innermost first: its own and those of its
    parents. *)
Fixpoint scopes (st : SymbolTable.t) : list (gmap string SymbolInfo) :=
  match st with
  | SymbolTable.mk syms par _ =>
      syms :: match par with
              | Some p => scopes p
              | None => []
              end
  end.

(** The two characters at the start of the text open a comment. *)
Definition comment_at (s : string) : bool :=
  match s with
  | String c (String c' _) =>
      Ascii.eqb c "/" && (Ascii.eqb c' "/" || Ascii.eqb c' "*")
  | _ => false
  end.

(** The operator that the two characters at the start of the text
    spell, if they do. *)
Definition operator_at (s : string) : option TokenType :=
  match s with
  | String c (String c' _) => dict_get OPERATORS (String c (String c' ""))
  | _ => None
  end.

(** A character of a word after its first. *)
Definition word_char (c : ascii) : bool := isalnum c || Ascii.eqb c "_".

(** [s[:-1]] *)
Fixpoint but_last (s : string) : string :=
  match s with
  | EmptyString => EmptyString
  | String c s' =>
      match s' with
      | EmptyString => EmptyString
      | String _ _ => String c (but_last s')
      end
  end.

(** The text contains a comment opener, [//] or [/*]. *)
Fixpoint has_opener (s : string) : bool :=
  match s with
  | EmptyString => false
  | String c s' => comment_at (String c s') || has_opener s'
  end.

(** The character is not a newline. *)
Definition not_newline (c : ascii) : bool := negb (Ascii.eqb c newline).

(** The line and column reached from [pos] over the text [txt]. *)
Definition position_after (pos : nat * nat) (txt : string) : nat * nat :=
  line_column_from pos.1 pos.2 txt.

(** [tracks txt self self']: the cursor moved over exactly the text
    [txt], the position grew by its length, and the line grew by its
    newlines. *)
Definition tracks (txt : string) (self self' : LexicalAnalyzer) : Prop :=
  reads txt self self' ∧
  position self' = position self + String.length txt ∧
  line self' = (line_column_from (line self) (column self) txt).1.

(** [lexed gap_ok at_ok pos text toks]: the text [text], which starts at
    the line and column [pos], is the lexemes of the tokens [toks] in
    order, each after a gap that satisfies [gap_ok], and each token
    satisfies [at_ok] at the line and column of its first character. *)
Inductive lexed (gap_ok : string → Prop) (at_ok : nat * nat → Token → Prop)
  : nat * nat → string → list Token → Prop :=
  | lexed_nil pos : lexed gap_ok at_ok pos "" []
  | lexed_cons pos gap tok rest toks :
      gap_ok gap →
      at_ok (position_after pos gap) tok →
      lexed gap_ok at_ok (position_after pos (gap +:+ tok_value tok)) rest toks →
      lexed gap_ok at_ok pos (gap +:+ tok_value tok +:+ rest) (tok :: toks).

(** The text contains a [.]. *)
Fixpoint has_dot (s : string) : bool :=
  match s with
  | EmptyString => false
  | String c s' => Ascii.eqb c "." || has_dot s'
  end.

(** The kind of token that a lexeme stands for, read off its text: the
    end of input for the empty text, a literal for a text that starts
    with a digit, a keyword or an identifier for a word, and else the
    operator or the single character token of that text. *)
Definition kind_of_lexeme (s : string) : option TokenType :=
  match s with
  | EmptyString => Some EOF
  | String c _ =>
      if isdigit c then Some (if has_dot s then FLOAT_LIT else INT_LIT)
      else if isalpha c || Ascii.eqb c "_" then
        Some (default IDENTIFIER (dict_get KEYWORDS s))
      else
        match dict_get OPERATORS s with
        | Some t => Some t
        | None =>
            List.find (fun t => String.eqb (TokenType_value t) s)
                      TokenType_members
        end
  end.

(** * Properties *)

Lemma dict_get_In {V : Type} (d : list (string * V)) k v :
  dict_get d k = Some v → In (k, v) d.
Proof.
  induction d as [|[k' v'] d IH]; simpl; [done|].
  destruct (String.eqb_spec k' k) as [->|]; [intros [= ->]|]; auto.
Qed.

(** Character tests and table lookups are left folded by [simpl]; the
    proofs below unfold them where a case needs it. *)
#[local] Arguments Ascii.eqb : simpl never.
#[local] Arguments String.eqb : simpl never.
#[local] Arguments dict_get {V} d k : simpl never.
#[local] Arguments isspace c : simpl never.
#[local] Arguments isdigit c : simpl never.
#[local] Arguments isalpha c : simpl never.
#[local] Arguments isalnum c : simpl never.
#[local] Arguments List.find {A} f l : simpl never.

(** ** Texts *)

Lemma str_app_cons c s t : String c s +:+ t = String c (s +:+ t).
Proof. reflexivity. Qed.

Lemma str_app_nil_l s : "" +:+ s = s.
Proof. reflexivity. Qed.

Lemma str_app_nil_r s : s +:+ "" = s.
Proof. induction s as [|c s IH]; [done|]. by rewrite str_app_cons, IH. Qed.

Lemma str_app_assoc s t u : (s +:+ t) +:+ u = s +:+ (t +:+ u).
Proof.
  induction s as [|c s IH]; [done|]. by rewrite !str_app_cons, IH.
Qed.

Lemma str_length_app s t :
  String.length (s +:+ t) = String.length s + String.length t.
Proof.
  induction s as [|c s IH]; [done|]. rewrite str_app_cons. simpl. by rewrite IH.
Qed.

Lemma str_from_empty n : str_from n "" = "".
Proof. by destruct n. Qed.

Lemma str_from_next n s c r :
  str_from n s = String c r → str_from (n + 1) s = r.
Proof.
  revert s. induction n as [|n IH]; intros s H; simpl in *.
  - by subst s.
  - destruct s as [|a s]; [done|]. by apply IH.
Qed.

Lemma str_from_plus n k s : str_from (n + k) s = str_from k (str_from n s).
Proof.
  revert s. induction n as [|n IH]; intros s; simpl; [done|].
  destruct s as [|a s]; [by rewrite str_from_empty|]. apply IH.
Qed.

Lemma length_str_from n s :
  String.length (str_from n s) = String.length s - n.
Proof.
  revert s. induction n as [|n IH]; intros s; simpl; [lia|].
  destruct s as [|a s]; simpl; [done|]. apply IH.
Qed.

(** [remaining] is the indexing view of the source: its [k]-th character
    is [self.source[self.position + k]], and it is empty exactly when
    [self.position >= len(self.source)]. *)
Lemma remaining_get self k :
  String.get k (remaining self) = String.get (position self + k) (source self).
Proof.
  unfold remaining. generalize (source self) as s.
  induction (position self) as [|n IH]; intros s; simpl; [done|].
  destruct s as [|a s]; simpl; [done|]. apply IH.
Qed.

Lemma remaining_empty self :
  remaining self = "" ↔ String.length (source self) ≤ position self.
Proof.
  unfold remaining. split.
  - intros H. pose proof (length_str_from (position self) (source self)) as L.
    rewrite H in L. simpl in L. lia.
  - intros H. pose proof (length_str_from (position self) (source self)) as L.
    destruct (str_from _ _); [done|]. simpl in L. lia.
Qed.

Lemma remaining_plus self self' k :
  source self' = source self → position self' = position self + k →
  remaining self' = str_from k (remaining self).
Proof. unfold remaining. intros -> ->. apply str_from_plus. Qed.

Lemma remaining_next self self' c r :
  remaining self = String c r →
  source self' = source self → position self' = position self + 1 →
  remaining self' = r.
Proof. intros H Hs Hp. by rewrite (remaining_plus self self' 1 Hs Hp), H. Qed.

Lemma remaining_next2 self self' c c' r :
  remaining self = String c (String c' r) →
  source self' = source self → position self' = position self + 2 →
  remaining self' = r.
Proof. intros H Hs Hp. by rewrite (remaining_plus self self' 2 Hs Hp), H. Qed.

(** ** Reading *)

Lemma reads_refl self : reads "" self self.
Proof. done. Qed.

Lemma reads_trans t1 t2 a b c :
  reads t1 a b → reads t2 b c → reads (t1 +:+ t2) a c.
Proof.
  intros (S1 & T1 & R1) (S2 & T2 & R2). repeat split; [congruence..|].
  by rewrite R1, R2, str_app_assoc.
Qed.

Lemma reads_length txt self self' :
  reads txt self self' →
  String.length (remaining self) =
    String.length txt + String.length (remaining self').
Proof. intros (_ & _ & ->). apply str_length_app. Qed.

Lemma reads_one self self' c r :
  remaining self = String c r →
  source self' = source self → tokens self' = tokens self →
  position self' = position self + 1 →
  reads (String c "") self self'.
Proof.
  intros H Hs Ht Hp. repeat split; [done..|].
  by rewrite (remaining_next _ _ _ _ H Hs Hp).
Qed.

Lemma reads_two self self' c c' r :
  remaining self = String c (String c' r) →
  source self' = source self → tokens self' = tokens self →
  position self' = position self + 2 →
  reads (String c (String c' "")) self self'.
Proof.
  intros H Hs Ht Hp. repeat split; [done..|].
  by rewrite (remaining_next2 _ _ _ _ _ H Hs Hp).
Qed.

Lemma reads_track self c r :
  remaining self = String c r → reads (String c "") self (track c self).
Proof.
  intros H. apply (reads_one _ _ _ _ H); unfold track; by destruct (Ascii.eqb _ _).
Qed.

Lemma reads_consume self c r :
  remaining self = String c r → reads (String c "") self (consume self).
Proof. intros H. by apply (reads_one _ _ _ _ H). Qed.

Lemma remaining_track self c r :
  remaining self = String c r → remaining (track c self) = r.
Proof. intros H. by destruct (reads_track _ _ _ H) as (_ & _ & [= ->]%(eq_trans (eq_sym H))). Qed.

(** ** The loops *)

Lemma symbol_table_track c self : symbol_table (track c self) = symbol_table self.
Proof. unfold track. by destruct (Ascii.eqb _ _). Qed.

Lemma skip_whitespace_reads self :
  ∃ ws, reads ws self (skip_whitespace self) ∧
        symbol_table (skip_whitespace self) = symbol_table self.
Proof.
  unfold skip_whitespace.
  remember (remaining self) as rest eqn:E. symmetry in E. revert self E.
  induction rest as [|c rest IH]; intros self E; simpl.
  { exists "". split; [apply reads_refl|done]. }
  destruct (isspace c); [|exists ""; split; [apply reads_refl|done]].
  destruct (IH (track c self) (remaining_track _ _ _ E)) as (ws & R & ST).
  exists (String c ws). split.
  - apply (reads_trans (String c "") ws _ _ _ (reads_track _ _ _ E) R).
  - by rewrite ST, symbol_table_track.
Qed.

(** With nothing left to read, [skip_whitespace] changes nothing. *)
Lemma skip_whitespace_at_end self :
  remaining self = "" → skip_whitespace self = self.
Proof. unfold skip_whitespace. by intros ->. Qed.


Lemma skip_whitespace_stop self c r :
  remaining self = String c r → isspace c = false → skip_whitespace self = self.
Proof. intros E Hc. unfold skip_whitespace. rewrite E. simpl. by rewrite Hc. Qed.

(** After [skip_whitespace] the next character, if any, is not whitespace. *)
Lemma skip_whitespace_next self c r :
  remaining (skip_whitespace self) = String c r → isspace c = false.
Proof.
  unfold skip_whitespace.
  remember (remaining self) as rest eqn:E. symmetry in E. revert self E.
  induction rest as [|a rest IH]; intros self E; simpl.
  { by rewrite E. }
  destruct (isspace a) eqn:Ha.
  - apply IH. by apply (remaining_track _ _ _ E).
  - rewrite E. by intros [= <- _].
Qed.

Lemma skip_line_comment_loop_reads rest self :
  remaining self = rest →
  ∃ txt, reads txt self (skip_line_comment_loop rest self) ∧
         symbol_table (skip_line_comment_loop rest self) = symbol_table self.
Proof.
  revert self. induction rest as [|c rest IH]; intros self E; simpl.
  { exists "". split; [apply reads_refl|done]. }
  destruct (negb (Ascii.eqb c newline)); [|exists ""; split; [apply reads_refl|done]].
  set (self1 := set_position self (position self + 1)).
  assert (R1 : reads (String c "") self self1) by by apply (reads_one _ _ _ _ E).
  assert (E1 : remaining self1 = rest) by by apply (remaining_next _ _ _ _ E).
  destruct (IH self1 E1) as (txt & R & ST).
  exists (String c txt). split; [|by rewrite ST].
  apply (reads_trans (String c "") txt _ _ _ R1 R).
Qed.

Lemma skip_line_comment_reads self c c' r :
  remaining self = String c (String c' r) →
  ∃ txt, reads (String c (String c' txt)) self (skip_line_comment self) ∧
         symbol_table (skip_line_comment self) = symbol_table self.
Proof.
  intros E. unfold skip_line_comment.
  set (self1 := set_position self (position self + 2)).
  assert (R1 : reads (String c (String c' "")) self self1)
    by by apply (reads_two _ _ _ _ _ E).
  destruct (skip_line_comment_loop_reads (remaining self1) self1 eq_refl)
    as (txt & R & ST).
  exists txt. split; [|by rewrite ST].
  apply (reads_trans (String c (String c' "")) txt _ _ _ R1 R).
Qed.

Lemma skip_block_comment_loop_reads rest self o self' :
  remaining self = rest →
  skip_block_comment_loop rest self = (o, self') →
  ∃ txt, reads txt self self' ∧ symbol_table self' = symbol_table self.
Proof.
  revert self. induction rest as [|c rest IH]; intros self E; simpl.
  { intros [= <- <-]. exists "". split; [apply reads_refl|done]. }
  destruct rest as [|c' rest].
  { intros [= <- <-]. exists "". split; [apply reads_refl|done]. }
  destruct (Ascii.eqb c "*" && Ascii.eqb c' "/").
  - intros [= <- <-]. exists (String c (String c' "")).
    split; [|done]. by apply (reads_two _ _ _ _ _ E).
  - intros H.
    destruct (IH (track c self) (remaining_track _ _ _ E) H) as (txt & R & ST).
    exists (String c txt). split; [|by rewrite ST, symbol_table_track].
    apply (reads_trans (String c "") txt _ _ _ (reads_track _ _ _ E) R).
Qed.

Lemma skip_block_comment_reads self c c' r o self' :
  remaining self = String c (String c' r) →
  skip_block_comment self = (o, self') →
  ∃ txt, reads (String c (String c' txt)) self self' ∧
         symbol_table self' = symbol_table self.
Proof.
  intros E. unfold skip_block_comment.
  set (self1 := set_position self (position self + 2)). intros H.
  assert (R1 : reads (String c (String c' "")) self self1)
    by by apply (reads_two _ _ _ _ _ E).
  destruct (skip_block_comment_loop_reads _ _ _ _ eq_refl H) as (txt & R & ST).
  exists txt. split; [|by rewrite ST].
  apply (reads_trans (String c (String c' "")) txt _ _ _ R1 R).
Qed.

Lemma scan_number_loop_reads rest number is_float self number' is_float' self' :
  remaining self = rest →
  scan_number_loop rest number is_float self = (number', is_float', self') →
  ∃ txt, reads txt self self' ∧ number' = number +:+ txt ∧
         symbol_table self' = symbol_table self ∧ line self' = line self.
Proof.
  revert number is_float self.
  induction rest as [|c rest IH]; intros number is_float self E; simpl.
  { intros [= <- <- <-]. exists "". by rewrite str_app_nil_r. }
  assert (Step : ∀ fl,
    scan_number_loop rest (number +:+ String c "") fl (consume self)
      = (number', is_float', self') →
    ∃ txt, reads txt self self' ∧ number' = number +:+ txt ∧
           symbol_table self' = symbol_table self ∧ line self' = line self).
  { intros fl H.
    assert (E1 : remaining (consume self) = rest)
      by by apply (remaining_next _ _ _ _ E).
    destruct (IH _ _ _ E1 H) as (txt & R & -> & ST & L).
    exists (String c txt). split_and!; [|by rewrite str_app_assoc|done..].
    apply (reads_trans (String c "") txt _ _ _ (reads_consume _ _ _ E) R). }
  destruct (isdigit c); [apply Step|].
  destruct (Ascii.eqb c "." && negb is_float); [apply Step|].
  intros [= <- <- <-]. exists "". by rewrite str_app_nil_r.
Qed.

Lemma scan_identifier_loop_reads rest identifier self identifier' self' :
  remaining self = rest →
  scan_identifier_loop rest identifier self = (identifier', self') →
  ∃ txt, reads txt self self' ∧ identifier' = identifier +:+ txt ∧
         symbol_table self' = symbol_table self ∧ line self' = line self.
Proof.
  revert identifier self.
  induction rest as [|c rest IH]; intros identifier self E; simpl.
  { intros [= <- <-]. exists "". by rewrite str_app_nil_r. }
  destruct (isalnum c || Ascii.eqb c "_").
  - intros H.
    assert (E1 : remaining (consume self) = rest)
      by by apply (remaining_next _ _ _ _ E).
    destruct (IH _ _ E1 H) as (txt & R & -> & ST & L).
    exists (String c txt). split_and!; [|by rewrite str_app_assoc|done..].
    apply (reads_trans (String c "") txt _ _ _ (reads_consume _ _ _ E) R).
  - intros [= <- <-]. exists "". by rewrite str_app_nil_r.
Qed.

(** ** One token *)

Lemma isalpha_isalnum c : isalpha c = true → isalnum c = true.
Proof. unfold isalnum. by intros ->. Qed.

Lemma KEYWORDS_values k t :
  dict_get KEYWORDS k = Some t → t ≠ IDENTIFIER ∧ t ≠ EOF.
Proof.
  intros H%dict_get_In. unfold KEYWORDS in H. simpl in H.
  destruct_or!; by simplify_eq.
Qed.

Lemma OPERATORS_values k t :
  dict_get OPERATORS k = Some t → t ≠ IDENTIFIER ∧ t ≠ EOF.
Proof.
  intros H%dict_get_In. unfold OPERATORS in H. simpl in H.
  destruct_or!; by simplify_eq.
Qed.

Lemma single_character_values c t :
  List.find (fun token_type =>
               String.eqb (TokenType_value token_type) (String c ""))
            TokenType_members = Some t →
  t ≠ IDENTIFIER ∧ t ≠ EOF.
Proof.
  intros [_ H%String.eqb_eq]%List.find_some.
  split; intros ->; by simplify_eq.
Qed.

Lemma scan_number_reads self c r o self' :
  remaining self = String c r → isdigit c = true →
  scan_number self = (o, self') →
  ∃ txt, reads (String c txt) self self' ∧
    symbol_table self' = symbol_table self ∧
    ∀ tok, o = Return tok →
      token_at self (String c txt) tok ∧
      (tok_type tok = INT_LIT ∨ tok_type tok = FLOAT_LIT).
Proof.
  intros E Hc. unfold scan_number. rewrite E. simpl. rewrite Hc.
  destruct (scan_number_loop r _ false (consume self))
    as [[number is_float] self1] eqn:L.
  apply (scan_number_loop_reads r) in L as (txt & R & -> & ST & Ln);
    [|by apply (remaining_next _ _ _ _ E)].
  change (("" +:+ String c "") +:+ txt) with (String c txt).
  assert (R' : reads (String c txt) self self1)
    by apply (reads_trans (String c "") txt _ _ _ (reads_consume _ _ _ E) R).
  intros H. exists txt. split_and!; [| |intros tok ->].
  - destruct is_float; [destruct (endswith _ _)|]; by simplify_eq.
  - destruct is_float; [destruct (endswith _ _)|]; by simplify_eq.
  - destruct is_float; [destruct (endswith _ _)|]; simplify_eq;
      (split; [by repeat split|auto]).
Qed.

Lemma scan_identifier_reads self c r o self' :
  remaining self = String c r → isalpha c || Ascii.eqb c "_" = true →
  scan_identifier self = (o, self') →
  ∃ txt tok, reads (String c txt) self self' ∧
    o = Return tok ∧ token_at self (String c txt) tok ∧
    tok_type tok ≠ EOF ∧
    (tok_type tok = IDENTIFIER → dict_get KEYWORDS (tok_value tok) = None) ∧
    symbol_table self' = register (symbol_table self) o.
Proof.
  intros E Hc. unfold scan_identifier. rewrite E. simpl.
  assert (Hc' : isalnum c || Ascii.eqb c "_" = true).
  { apply orb_true_iff in Hc as [H%isalpha_isalnum| ->];
      [by rewrite H|by rewrite orb_true_r]. }
  rewrite Hc'.
  destruct (scan_identifier_loop r _ (consume self))
    as [identifier self1] eqn:L.
  apply (scan_identifier_loop_reads r) in L as (txt & R & -> & ST & Ln);
    [|by apply (remaining_next _ _ _ _ E)].
  change (("" +:+ String c "") +:+ txt) with (String c txt).
  assert (R' : reads (String c txt) self self1)
    by apply (reads_trans (String c "") txt _ _ _ (reads_consume _ _ _ E) R).
  destruct (dict_get KEYWORDS (String c txt)) as [kw|] eqn:K.
  - intros [= <- <-]. apply KEYWORDS_values in K as [K1 K2].
    eexists txt, _. split_and!; [done|done|by repeat split|done|done|].
    simpl. by rewrite decide_False.
  - intros [= <- <-]. eexists txt, _.
    split_and!; [|done| |done|done|].
    + destruct (SymbolTable.lookup _ _); [done|].
      destruct R' as (? & ? & ?). by repeat split.
    + by destruct (SymbolTable.lookup _ _).
    + simpl. rewrite ST.
      destruct (SymbolTable.lookup (symbol_table self)) eqn:Lk; simpl;
        rewrite ?ST; by destruct (SymbolTable.lookup (symbol_table self)).
Qed.

Lemma register_other st tok :
  tok_type tok ≠ IDENTIFIER → register st (Return tok) = st.
Proof. intros H. simpl. by rewrite decide_False. Qed.

Lemma single_character_token_reads char rest self o self' :
  remaining self = String char rest →
  single_character_token char self = (o, self') →
  reads (String char "") self self' ∧
  symbol_table self' = register (symbol_table self) o ∧
  ∀ tok, o = Return tok →
    token_at self (String char "") tok ∧ tok_type tok ≠ EOF ∧
    tok_type tok ≠ IDENTIFIER.
Proof.
  intros E. unfold single_character_token.
  destruct (List.find _ _) as [t|] eqn:F; intros [= <- <-].
  - apply single_character_values in F as [F1 F2].
    split_and!; [by apply (reads_consume _ _ _ E)|by rewrite register_other|].
    intros tok [= <-]. split_and!; [|done..].
    repeat split; simpl. lia.
  - split_and!; [by apply (reads_consume _ _ _ E)|done..].
Qed.

(** Every token of [scan_token] carries exactly the text the call read,
    which starts with the character under the cursor, and the line and
    column of that character. *)
Lemma scan_token_reads char rest self o self' :
  remaining self = String char rest →
  scan_token char rest self = (o, self') →
  ∃ txt, reads (String char txt) self self' ∧
    symbol_table self' = register (symbol_table self) o ∧
    ∀ tok, o = Return tok →
      token_at self (String char txt) tok ∧ tok_type tok ≠ EOF ∧
      (tok_type tok = IDENTIFIER → dict_get KEYWORDS (tok_value tok) = None).
Proof.
  intros E. unfold scan_token.
  destruct (isdigit char) eqn:D.
  { intros H. destruct (scan_number_reads _ _ _ _ _ E D H) as (txt & R & ST & T).
    exists txt. split_and!; [done| |].
    - destruct o as [tok|e]; [|done].
      destruct (T tok eq_refl) as [_ [Ty|Ty]];
        rewrite register_other; by rewrite ?Ty.
    - intros tok ->. destruct (T tok eq_refl) as [A [Ty|Ty]];
        split_and!; by rewrite ?Ty. }
  destruct (isalpha char || Ascii.eqb char "_") eqn:A.
  { intros H.
    destruct (scan_identifier_reads _ _ _ _ _ E A H)
      as (txt & tok & R & -> & T & NE & K & ST).
    exists txt. split_and!; [done..|]. by intros ? [= <-]. }
  assert (Single : single_character_token char self = (o, self') →
    ∃ txt, reads (String char txt) self self' ∧
      symbol_table self' = register (symbol_table self) o ∧
      ∀ tok, o = Return tok →
        token_at self (String char txt) tok ∧ tok_type tok ≠ EOF ∧
        (tok_type tok = IDENTIFIER →
         dict_get KEYWORDS (tok_value tok) = None)).
  { intros H.
    destruct (single_character_token_reads _ _ _ _ _ E H) as (R & ST & T).
    exists "". split_and!; [done..|].
    intros tok ->. destruct (T tok eq_refl) as (? & ? & ?). by split_and!. }
  destruct rest as [|char2 rest]; [done|].
  destruct (dict_get OPERATORS _) as [op_type|] eqn:O; [|done].
  apply OPERATORS_values in O as [O1 O2].
  intros [= <- <-]. exists (String char2 "").
  split_and!; [by apply (reads_two _ _ _ _ _ E)|by rewrite register_other|].
  intros tok [= <-]. split_and!; [|done..].
  repeat split; simpl. lia.
Qed.

(** ** [next_token], case by case *)

Lemma next_token_fuel_spec fuel self res :
  next_token_fuel fuel self = Some res → next_token_spec self res.
Proof.
  revert self. induction fuel as [|fuel IH]; intros self; simpl; [done|].
  destruct (remaining (skip_whitespace self)) as [|char rest] eqn:E.
  { intros [= <-]. by apply nt_eof. }
  destruct (Ascii.eqb_spec char "/") as [->|NS].
  - destruct rest as [|next_char rest].
    { intros [= <-]. by apply nt_scan. }
    destruct (Ascii.eqb_spec next_char "/") as [->|NS2].
    { intros H. eapply nt_line_comment; eauto. }
    destruct (Ascii.eqb_spec next_char "*") as [->|NS3].
    + destruct (skip_block_comment _) as [[u|e] self1] eqn:B.
      * intros H. eapply nt_block_comment; eauto.
      * intros [= <-]. eapply nt_unterminated; eauto.
    + intros [= <-]. apply nt_scan; [done|intros ? [=]; done..].
  - intros [= <-]. apply nt_scan; [done|intros ? [=]; done..].
Qed.

Lemma next_token_spec_intro self res :
  next_token self = Some res → next_token_spec self res.
Proof. apply next_token_fuel_spec. Qed.

(** What one call comes to: the cursor moves over some insignificant
    text and then over the lexeme of the token; the end-of-input token is
    the only one with an empty lexeme and is returned with nothing left
    to read; the symbol table changes as [register] says. *)
Lemma next_token_spec_reads self res :
  next_token_spec self res →
  ∃ skipped lexeme,
    reads (skipped +:+ lexeme) self res.2 ∧
    symbol_table res.2 = register (symbol_table self) res.1 ∧
    ∀ tok, res.1 = Return tok →
      tok_value tok = lexeme ∧
      (tok_type tok = EOF →
       tok = mkToken EOF "" (line res.2) (column res.2) ∧
       remaining res.2 = "") ∧
      (tok_type tok ≠ EOF → lexeme ≠ "") ∧
      (tok_type tok = IDENTIFIER → dict_get KEYWORDS (tok_value tok) = None).
Proof.
  induction 1 as [self E|self rest res E _ IH|self rest u self1 res E B _ IH
                 |self rest e self1 E B|self char rest E N1 N2];
    destruct (skip_whitespace_reads self) as (ws & Rws & STws).
  - exists ws, "". rewrite str_app_nil_r. split_and!; [done..|].
    intros tok [= <-]. by split_and!.
  - destruct (skip_line_comment_reads _ _ _ _ E) as (txt & R & ST).
    destruct IH as (skipped & lexeme & R' & ST' & T).
    exists (ws +:+ String "/" (String "/" txt) +:+ skipped), lexeme.
    split_and!; [|by rewrite ST', ST, STws|done].
    rewrite !str_app_assoc.
    apply (reads_trans _ _ _ _ _ Rws), (reads_trans _ _ _ _ _ R), R'.
  - destruct (skip_block_comment_reads _ _ _ _ _ _ E B) as (txt & R & ST).
    destruct IH as (skipped & lexeme & R' & ST' & T).
    exists (ws +:+ String "/" (String "*" txt) +:+ skipped), lexeme.
    split_and!; [|by rewrite ST', ST, STws|done].
    rewrite !str_app_assoc.
    apply (reads_trans _ _ _ _ _ Rws), (reads_trans _ _ _ _ _ R), R'.
  - destruct (skip_block_comment_reads _ _ _ _ _ _ E B) as (txt & R & ST).
    exists (ws +:+ String "/" (String "*" txt)), "". rewrite str_app_nil_r.
    split_and!; [|simpl; by rewrite ST, STws|done].
    apply (reads_trans _ _ _ _ _ Rws), R.
  - destruct (scan_token char rest (skip_whitespace self)) as [o self'] eqn:S.
    destruct (scan_token_reads _ _ _ _ _ E S) as (txt & R & ST & T).
    exists ws, (String char txt).
    split_and!; [apply (reads_trans _ _ _ _ _ Rws), R|simpl; by rewrite ST, STws|].
    intros tok Ho. simpl in Ho. subst o.
    destruct (T tok eq_refl) as ((V & _ & _) & NE & K).
    by split_and!.
Qed.

(** A call never runs out of calls when started above the number of
    unread characters. *)
Lemma next_token_fuel_total fuel self :
  String.length (remaining self) < fuel →
  is_Some (next_token_fuel fuel self).
Proof.
  revert self. induction fuel as [|fuel IH]; intros self Hf; [lia|]. simpl.
  destruct (skip_whitespace_reads self) as (ws & Rws%reads_length & _).
  destruct (remaining (skip_whitespace self)) as [|char rest] eqn:E; [done|].
  destruct (Ascii.eqb char "/"); [|done].
  destruct rest as [|next_char rest]; [done|].
  destruct (Ascii.eqb next_char "/").
  { destruct (skip_line_comment_reads _ _ _ _ E) as (txt & R%reads_length & _).
    apply IH. rewrite E in R. simpl in *. lia. }
  destruct (Ascii.eqb next_char "*"); [|done].
  destruct (skip_block_comment _) as [[u|e] self1] eqn:B; [|done].
  destruct (skip_block_comment_reads _ _ _ _ _ _ E B)
    as (txt & R%reads_length & _).
  apply IH. rewrite E in R. simpl in *. lia.
Qed.

Lemma next_token_total self : is_Some (next_token self).
Proof. apply next_token_fuel_total. lia. Qed.

(** The result does not depend on the count, once it is large enough. *)
Lemma next_token_fuel_mono fuel fuel' self res :
  next_token_fuel fuel self = Some res → fuel ≤ fuel' →
  next_token_fuel fuel' self = Some res.
Proof.
  revert fuel' self. induction fuel as [|fuel IH]; intros fuel' self; [done|].
  destruct fuel' as [|fuel']; [lia|]. simpl. intros H Hf.
  destruct (remaining (skip_whitespace self)) as [|char rest]; [done|].
  destruct (Ascii.eqb char "/"); [|done].
  destruct rest as [|next_char rest]; [done|].
  destruct (Ascii.eqb next_char "/"); [apply IH; [done|lia]|].
  destruct (Ascii.eqb next_char "*"); [|done].
  destruct (skip_block_comment _) as [[u|e] self1]; [|done].
  apply IH; [done|lia].
Qed.

Lemma next_token_fuel_enough fuel self :
  String.length (remaining self) < fuel →
  next_token_fuel fuel self = next_token self.
Proof.
  intros Hf. destruct (next_token_total self) as [res H]. rewrite H.
  apply (next_token_fuel_mono _ _ _ _ H). lia.
Qed.

(** A call whose recursion limit is not hit comes to what [next_token]
    comes to. *)
Lemma next_token_fuel_agrees depth self res :
  next_token_fuel depth self = Some res → next_token self = Some res.
Proof.
  intros H.
  rewrite <- (next_token_fuel_enough
                (depth `max` S (String.length (remaining self)))) by lia.
  apply (next_token_fuel_mono _ _ _ _ H). lia.
Qed.

(** [next_token] with the facts of [next_token_spec_reads]. *)
Lemma next_token_reads self o self' :
  next_token self = Some (o, self') →
  ∃ skipped lexeme,
    reads (skipped +:+ lexeme) self self' ∧
    symbol_table self' = register (symbol_table self) o ∧
    ∀ tok, o = Return tok →
      tok_value tok = lexeme ∧
      (tok_type tok = EOF →
       tok = mkToken EOF "" (line self') (column self') ∧
       remaining self' = "") ∧
      (tok_type tok ≠ EOF → lexeme ≠ "") ∧
      (tok_type tok = IDENTIFIER → dict_get KEYWORDS (tok_value tok) = None).
Proof. intros H%next_token_spec_intro. apply (next_token_spec_reads _ _ H). Qed.

(** A token other than the end-of-input token takes at least one
    character. *)
Lemma next_token_progress self tok self' :
  next_token self = Some (Return tok, self') → tok_type tok ≠ EOF →
  String.length (remaining self') < String.length (remaining self).
Proof.
  intros (skipped & lexeme & R%reads_length & _ & T)%next_token_reads NE.
  destruct (T tok eq_refl) as (_ & _ & L & _). specialize (L NE).
  rewrite str_length_app in R. destruct lexeme; [done|]. simpl in R. lia.
Qed.

(** ** Words *)

Lemma scan_identifier_kind self tok self' :
  scan_identifier self = (Return tok, self') →
  tok_type tok = default IDENTIFIER (dict_get KEYWORDS (tok_value tok)).
Proof.
  unfold scan_identifier.
  destruct (scan_identifier_loop _ _ _) as [identifier self1].
  destruct (dict_get KEYWORDS identifier) as [kw|] eqn:K;
    intros [= <- <-]; simpl; by rewrite K.
Qed.

Lemma scan_token_kind char rest self tok self' :
  remaining self = String char rest →
  scan_token char rest self = (Return tok, self') → word_kind tok.
Proof.
  intros E S char' txt V D A.
  destruct (scan_token_reads _ _ _ _ _ E S) as (txt' & _ & _ & T).
  destruct (T tok eq_refl) as ((V' & _ & _) & _).
  rewrite V in V'. injection V' as -> ->.
  unfold scan_token in S. rewrite D, A in S.
  apply (scan_identifier_kind _ _ _ S).
Qed.

Lemma next_token_spec_kind self res :
  next_token_spec self res → ∀ tok, res.1 = Return tok → word_kind tok.
Proof.
  induction 1 as [self E|self rest res E _ IH|self rest u self1 res E B _ IH
                 |self rest e self1 E B|self char rest E N1 N2];
    [|done|done|done|].
  - by intros tok [= <-] char txt.
  - destruct (scan_token char rest (skip_whitespace self)) as [o self'] eqn:S.
    intros tok Ho. simpl in Ho. subst o. apply (scan_token_kind _ _ _ _ _ E S).
Qed.

(** ** A full scan *)

Lemma next_token_ok self tok self' :
  next_token self = Some (Return tok, self') → token_ok tok.
Proof.
  intros H. pose proof (next_token_spec_intro _ _ H) as Sp.
  destruct (next_token_reads _ _ _ H) as (skipped & lexeme & _ & _ & T).
  destruct (T tok eq_refl) as (V & Eo & _ & K).
  split_and!; [done| |apply (next_token_spec_kind _ _ Sp tok eq_refl)].
  intros Ty. destruct (Eo Ty) as [-> _]. done.
Qed.

Lemma remaining_set_tokens self ts : remaining (set_tokens self ts) = remaining self.
Proof. done. Qed.

(** [analyze] appends the tokens it is given, in order; the symbol table
    it leaves is the one its tokens register; when it returns, it returns
    the collected list, and the list ends with the first end-of-input
    token. *)
Lemma analyze_fuel_spec fuel self r self' :
  analyze_fuel fuel self = Some (r, self') →
  ∃ new, tokens self' = tokens self ++ new ∧
    source self' = source self ∧
    symbol_table self' = registered (symbol_table self) new ∧
    Forall token_ok new ∧
    ∀ toks, r = Return toks →
      toks = tokens self' ∧
      remaining self' = "" ∧
      ∃ body eof, new = body ++ [eof] ∧ tok_type eof = EOF ∧
        Forall (λ tok, tok_type tok ≠ EOF) body.
Proof.
  revert self. induction fuel as [|fuel IH]; intros self; simpl; [done|].
  destruct (next_token self) as [[[tok|e] self1]|] eqn:N; [| |done].
  - pose proof (next_token_ok _ _ _ N) as Ok.
    destruct (next_token_reads _ _ _ N)
      as (skipped & lexeme & (So & To & _) & ST & T).
    destruct (T tok eq_refl) as (_ & Eo & _ & _).
    destruct (decide (tok_type tok = EOF)) as [Ty|Ty].
    + intros [= <- <-]. exists [tok]. simpl. rewrite To.
      split_and!; [done|done|done|by constructor|].
      intros toks [= <-]. split_and!; [done|by apply Eo|].
      exists [], tok. by split_and!.
    + intros H. destruct (IH _ H) as (new & Tn & Sn & STn & Fn & Rn).
      simpl in Tn, Sn, STn. exists (tok :: new).
      rewrite Tn, To, <- app_assoc.
      split_and!; [done|congruence|by rewrite STn, ST|by constructor|].
      intros toks Hr.
      destruct (Rn toks Hr) as (-> & Rem & body & eof & -> & Te & Fb).
      split_and!; [by rewrite Tn, To, <- app_assoc|done|].
      exists (tok :: body), eof. split_and!; [done|done|by constructor].
  - intros [= <- <-].
    destruct (next_token_reads _ _ _ N)
      as (skipped & lexeme & (So & To & _) & ST & T).
    exists []. rewrite app_nil_r. by split_and!.
Qed.

Lemma analyze_fuel_total fuel self :
  String.length (remaining self) < fuel → is_Some (analyze_fuel fuel self).
Proof.
  revert self. induction fuel as [|fuel IH]; intros self Hf; [lia|]. simpl.
  destruct (next_token_total self) as [[[tok|e] self1] N]; rewrite N; [|done].
  destruct (decide (tok_type tok = EOF)) as [Ty|Ty]; [done|].
  apply IH. rewrite remaining_set_tokens.
  pose proof (next_token_progress _ _ _ N Ty). lia.
Qed.

(** [analyze] always comes to an end: it returns or raises. *)
Lemma analyze_total self : is_Some (analyze self).
Proof. apply analyze_fuel_total. lia. Qed.

(** ** A full scan under a recursion limit *)

(** The loop of [analyze] comes to an end under every recursion limit. *)
Lemma analyze_limit_fuel_total depth fuel self :
  String.length (remaining self) < fuel →
  is_Some (analyze_limit_fuel depth fuel self).
Proof.
  revert self. induction fuel as [|fuel IH]; intros self Hf; [lia|]. simpl.
  destruct (next_token_fuel depth self) as [[[tok|e] self1]|] eqn:N; [|done..].
  destruct (decide (tok_type tok = EOF)) as [Ty|Ty]; [done|].
  apply IH. rewrite remaining_set_tokens.
  pose proof (next_token_progress _ _ _ (next_token_fuel_agrees _ _ _ N) Ty).
  lia.
Qed.

Lemma analyze_limit_total depth self : is_Some (analyze_limit depth self).
Proof. apply analyze_limit_fuel_total. lia. Qed.

(** A scan whose recursion limit is not hit comes to what [analyze] comes
    to. *)
Lemma analyze_limit_fuel_agrees depth fuel self res :
  analyze_limit_fuel depth fuel self = Some (Completed res) →
  analyze_fuel fuel self = Some res.
Proof.
  revert self. induction fuel as [|fuel IH]; intros self; [done|].
  cbn [analyze_limit_fuel analyze_fuel].
  destruct (next_token_fuel depth self) as [[[tok|e] self1]|] eqn:N; [| |done];
    rewrite (next_token_fuel_agrees _ _ _ N).
  - destruct (decide (tok_type tok = EOF)); [by intros [= <-]|apply IH].
  - by intros [= <-].
Qed.

(** A limit above the number of unread characters is never hit. *)
Lemma analyze_limit_fuel_enough depth fuel self :
  String.length (remaining self) < depth →
  analyze_limit_fuel depth fuel self = Completed <$> analyze_fuel fuel self.
Proof.
  revert self. induction fuel as [|fuel IH]; intros self Hd; [done|].
  cbn [analyze_limit_fuel analyze_fuel].
  rewrite (next_token_fuel_enough _ _ Hd).
  destruct (next_token_total self) as [[[tok|e] self1] N]; rewrite N; [|done].
  destruct (decide (tok_type tok = EOF)) as [Ty|Ty]; [done|].
  apply IH. rewrite remaining_set_tokens.
  pose proof (next_token_progress _ _ _ N Ty). lia.
Qed.



(** A [LexicalError] that leaves a scan was raised by a call of
    [next_token] under the same limit. *)
Lemma analyze_limit_fuel_raise depth fuel self e self' :
  analyze_limit_fuel depth fuel self = Some (Completed (Raise e, self')) →
  ∃ self0, next_token_fuel depth self0 = Some (Raise e, self').
Proof.
  revert self. induction fuel as [|fuel IH]; intros self; [done|].
  cbn [analyze_limit_fuel].
  destruct (next_token_fuel depth self) as [[[tok|e'] self1]|] eqn:N; [| |done].
  - destruct (decide (tok_type tok = EOF)); [done|]. apply IH.
  - intros [= <- <-]. by exists self.
Qed.

(** ** A character that starts no token *)

Lemma consume_column self : column (consume self) - 1 = column self.
Proof. simpl. lia. Qed.

Lemma leading_dot_unexpected self rest :
  remaining self = String "." rest →
  next_token self =
    Some (Raise (mkLexicalError "Unexpected character: ." (line self) (column self)),
          consume self).
Proof.
  intros E. unfold next_token. rewrite E. simpl.
  rewrite (skip_whitespace_stop _ _ _ E eq_refl), E.
  change (Ascii.eqb "." "/") with false. cbv iota.
  unfold scan_token.
  change (isdigit ".") with false.
  change (isalpha "." || Ascii.eqb "." "_") with false. cbv iota.
  assert (S : single_character_token "." self =
    (Raise (mkLexicalError "Unexpected character: ." (line self) (column self)),
     consume self)).
  { unfold single_character_token.
    change (List.find _ TokenType_members) with (@None TokenType). cbv iota.
    by rewrite consume_column. }
  destruct rest as [|c rest]; [by rewrite S|].
  assert (O : dict_get OPERATORS (String "." (String c "")) = None).
  { by vm_compute. }
  rewrite O. by rewrite S.
Qed.

(** ** Insignificant text *)





Lemma analyze_eof self tok self1 :
  next_token self = Some (Return tok, self1) → tok_type tok = EOF →
  analyze self = Some (Return (tokens self1 ++ [tok]),
                       set_tokens self1 (tokens self1 ++ [tok])).
Proof.
  intros N Ty. unfold analyze. cbn [analyze_fuel]. rewrite N.
  by rewrite decide_True.
Qed.

Lemma analyze_raise self e self1 :
  next_token self = Some (Raise e, self1) →
  analyze self = Some (Raise e, self1).
Proof. intros N. unfold analyze. cbn [analyze_fuel]. by rewrite N. Qed.

(** ** Comments and the recursion limit *)









(** ** Numeric literals *)

Lemma advance_0 self : advance 0 self = self.
Proof.
  destruct self. unfold advance, set_column, set_position. simpl.
  f_equal; lia.
Qed.

Lemma advance_consume n self : advance n (consume self) = advance (S n) self.
Proof.
  unfold advance, consume, set_column, set_position. simpl. f_equal; lia.
Qed.

Lemma advance_advance n m self : advance m (advance n self) = advance (n + m) self.
Proof.
  unfold advance, set_column, set_position. simpl. f_equal; lia.
Qed.

Lemma scan_number_loop_digits ds rest number is_float self :
  str_forall isdigit ds = true →
  scan_number_loop (ds +:+ rest) number is_float self =
  scan_number_loop rest (number +:+ ds) is_float
    (advance (String.length ds) self).
Proof.
  revert number self. induction ds as [|c ds IH]; intros number self Hd.
  - by rewrite str_app_nil_l, str_app_nil_r, advance_0.
  - simpl in Hd. apply andb_true_iff in Hd as [Hc Hd].
    rewrite str_app_cons. simpl. rewrite Hc, (IH _ _ Hd), advance_consume.
    by rewrite str_app_assoc.
Qed.

Lemma scan_number_loop_stop rest number is_float self :
  next_is (λ c, isdigit c || (Ascii.eqb c "." && negb is_float)) rest = false →
  scan_number_loop rest number is_float self = (number, is_float, self).
Proof.
  destruct rest as [|c rest]; [done|]. simpl.
  intros [-> ->]%orb_false_iff. done.
Qed.

Lemma str_from_length s t : str_from (String.length s) (s +:+ t) = t.
Proof. induction s as [|c s IH]; [done|]. by rewrite str_app_cons. Qed.

Lemma endswith_last s c : endswith (s +:+ String c "") "." = Ascii.eqb c ".".
Proof.
  unfold endswith. rewrite str_length_app. simpl.
  replace (String.length s + 1 - 1) with (String.length s) by lia.
  rewrite str_from_length. unfold String.eqb.
  by destruct (Ascii.eqb c ".").
Qed.

Lemma str_last s : s ≠ "" → ∃ s' c, s = s' +:+ String c "".
Proof.
  induction s as [|a s IH]; [done|]. intros _.
  destruct s as [|b s]; [by exists "", a|].
  destruct IH as (s' & c & ->); [done|]. by exists (String a s'), c.
Qed.

Lemma str_forall_app P s t :
  str_forall P (s +:+ t) = str_forall P s && str_forall P t.
Proof.
  induction s as [|c s IH]; [done|]. rewrite str_app_cons. simpl.
  by rewrite IH, andb_assoc.
Qed.

Lemma isdigit_not_dot c : isdigit c = true → Ascii.eqb c "." = false.
Proof. destruct (Ascii.eqb_spec c ".") as [->|]; [by vm_compute|done]. Qed.




Lemma scan_number_int self ds rest :
  remaining self = ds +:+ rest → str_forall isdigit ds = true →
  next_is (λ c, isdigit c || Ascii.eqb c ".") rest = false →
  scan_number self =
    (Return (mkToken INT_LIT ds (line self) (column self)),
     advance (String.length ds) self).
Proof.
  intros E Hd Hr. unfold scan_number. rewrite E.
  rewrite (scan_number_loop_digits _ _ _ _ _ Hd), scan_number_loop_stop.
  - by rewrite str_app_nil_l.
  - destruct rest as [|c rest]; [done|]. simpl in *. by rewrite andb_true_r.
Qed.

Lemma scan_number_loop_dot rest number self :
  scan_number_loop (String "." rest) number false self =
  scan_number_loop rest (number +:+ ".") true (consume self).
Proof. simpl. by change (isdigit ".") with false. Qed.

Lemma scan_number_float self ds ds2 rest :
  remaining self = ds +:+ "." +:+ ds2 +:+ rest →
  str_forall isdigit ds = true →
  ds2 ≠ "" → str_forall isdigit ds2 = true →
  next_is isdigit rest = false →
  scan_number self =
    (Return (mkToken FLOAT_LIT (ds +:+ "." +:+ ds2) (line self) (column self)),
     advance (String.length ds + 1 + String.length ds2) self).
Proof.
  intros E Hd N2 Hd2 Hr. unfold scan_number. rewrite E.
  rewrite (scan_number_loop_digits _ _ _ _ _ Hd).
  rewrite str_app_cons, str_app_nil_l, scan_number_loop_dot.
  rewrite (scan_number_loop_digits _ _ _ _ _ Hd2), scan_number_loop_stop.
  2:{ destruct rest as [|c rest]; [done|]. simpl in *.
      by rewrite Hr, andb_false_r. }
  change (consume ?s) with (advance 1 s). rewrite !advance_advance.
  rewrite str_app_nil_l, str_app_assoc.
  destruct (str_last ds2 N2) as (s' & c & ->).
  rewrite str_forall_app in Hd2. apply andb_true_iff in Hd2 as [_ Hc].
  simpl in Hc. rewrite andb_true_r in Hc.
  rewrite <- !str_app_assoc, endswith_last, (isdigit_not_dot _ Hc).
  by rewrite Nat.add_assoc.
Qed.

Lemma scan_number_trailing_dot self ds rest :
  remaining self = ds +:+ "." +:+ rest →
  str_forall isdigit ds = true →
  next_is isdigit rest = false →
  scan_number self =
    (Raise (mkLexicalError "Invalid float literal" (line self) (column self)),
     advance (String.length ds + 1) self).
Proof.
  intros E Hd Hr. unfold scan_number. rewrite E.
  rewrite (scan_number_loop_digits _ _ _ _ _ Hd).
  rewrite str_app_cons, str_app_nil_l, scan_number_loop_dot, scan_number_loop_stop.
  2:{ destruct rest as [|c rest]; [done|]. simpl in *.
      by rewrite Hr, andb_false_r. }
  change (consume ?s) with (advance 1 s). rewrite !advance_advance.
  by rewrite str_app_nil_l, endswith_last.
Qed.



Lemma digit_span s :
  ∃ ds rest, s = ds +:+ rest ∧ str_forall isdigit ds = true ∧
             next_is isdigit rest = false.
Proof.
  induction s as [|c s (ds & rest & -> & Hd & Hr)]; [by exists "", ""|].
  destruct (isdigit c) eqn:D.
  - exists (String c ds), rest. simpl. by rewrite D.
  - exists "", (String c (ds +:+ rest)). by simpl.
Qed.

(** The three cases of [numeric_literal] are all there are: a text that
    starts with a digit is digits followed by a [.] and no digit, or
    digits followed by neither a digit nor a [.], or digits, a [.] and
    digits followed by no digit. *)
Lemma numeric_literal_shapes c r :
  isdigit c = true →
  ∃ ds, ds ≠ "" ∧ str_forall isdigit ds = true ∧
    ((∃ rest, String c r = ds +:+ "." +:+ rest ∧ next_is isdigit rest = false) ∨
     (∃ rest, String c r = ds +:+ rest ∧
        next_is (λ c, isdigit c || Ascii.eqb c ".") rest = false) ∨
     (∃ ds2 rest, String c r = ds +:+ "." +:+ ds2 +:+ rest ∧ ds2 ≠ "" ∧
        str_forall isdigit ds2 = true ∧ next_is isdigit rest = false)).
Proof.
  intros D. destruct (digit_span (String c r)) as (ds & rest & E & Hd & Hr).
  exists ds. split_and!; [|done|].
  { intros ->. rewrite str_app_nil_l in E. subst rest. simpl in Hr. congruence. }
  rewrite E. destruct rest as [|a rest]; [right; left; by exists ""|].
  simpl in Hr. destruct (Ascii.eqb_spec a ".") as [->|Na].
  - destruct (digit_span rest) as (ds2 & rest2 & -> & Hd2 & Hr2).
    destruct ds2 as [|d ds2].
    + left. by exists rest2.
    + right; right. by exists (String d ds2), rest2.
  - right; left. exists (String a rest). split; [done|]. simpl. rewrite Hr.
    by apply Ascii.eqb_neq.
Qed.

(** ** Operators *)

(** Evaluate the character tests on literal characters. *)
Ltac eval_tests :=
  repeat match goal with
  | |- context [Ascii.eqb ?a ?b] =>
      let v := eval vm_compute in (Ascii.eqb a b) in
      change (Ascii.eqb a b) with v
  | |- context [isdigit ?a] =>
      let v := eval vm_compute in (isdigit a) in change (isdigit a) with v
  | |- context [isalpha ?a] =>
      let v := eval vm_compute in (isalpha a) in change (isalpha a) with v
  end.

(** A two-character operator under the cursor is returned as one token,
    at the column of its first character. *)
Lemma next_token_operator self c1 c2 rest t :
  remaining self = String c1 (String c2 rest) →
  dict_get OPERATORS (String c1 (String c2 "")) = Some t →
  next_token self =
    Some (Return (mkToken t (String c1 (String c2 "")) (line self) (column self)),
          advance 2 self).
Proof.
  intros E O. pose proof (dict_get_In _ _ _ O) as I.
  unfold OPERATORS in I. simpl in I.
  unfold next_token. rewrite E. cbn [next_token_fuel String.length].
  assert (Sp : isspace c1 = false) by (destruct_or!; by simplify_eq).
  rewrite (skip_whitespace_stop _ _ _ E Sp), E.
  assert (T : scan_token c1 (String c2 rest) self =
    (Return (mkToken t (String c1 (String c2 "")) (line self) (column self)),
     advance 2 self)).
  { unfold scan_token. rewrite O.
    replace (isdigit c1) with false by (destruct_or!; by simplify_eq).
    replace (isalpha c1 || Ascii.eqb c1 "_") with false
      by (destruct_or!; by simplify_eq).
    simpl. by rewrite Nat.add_sub. }
  destruct_or!; simplify_eq; eval_tests; cbv iota; by rewrite T.
Qed.

(** ** Examples of the specification *)

(** C1, as the specification states it, fails: scanning [.14] raises, and
    so does scanning the sample program of [main], at its [.14]. *)
Lemma leading_dot_literal_rejected :
  fst <$> analyze (LexicalAnalyzer_init ".14") =
    Some (Raise (mkLexicalError "Unexpected character: ." 1 1)) ∧
  fst <$> analyze (LexicalAnalyzer_init sample_program) =
    Some (Raise (mkLexicalError "Unexpected character: ." 3 19)).
Proof. split; by vm_compute. Qed.

(** C1, amended. A [.] with no digit before it does not start a numeric
    literal: when the character under the cursor is a [.], [next_token]
    raises the unexpected character error, whatever follows the [.], and
    so does a full scan that starts there; the error carries the line
    and column the scanner holds at that call, and the cursor has moved
    over the [.]. *)
Theorem leading_dot_is_unexpected self rest :
  remaining self = String "." rest →
  next_token self =
    Some (Raise (mkLexicalError "Unexpected character: ."
                                (line self) (column self)),
          consume self) ∧
  analyze self =
    Some (Raise (mkLexicalError "Unexpected character: ."
                                (line self) (column self)),
          consume self).
Proof.
  intros E. pose proof (leading_dot_unexpected _ _ E) as N.
  split; [done|]. by apply analyze_raise.
Qed.

Lemma leading_dot_is_unexpected_witness :
  let self := LexicalAnalyzer_init ".14" in
  next_token self =
    Some (Raise (mkLexicalError "Unexpected character: ." 1 1), consume self) ∧
  analyze self =
    Some (Raise (mkLexicalError "Unexpected character: ." 1 1), consume self).
Proof.
  apply (leading_dot_is_unexpected (LexicalAnalyzer_init ".14") "14").
  reflexivity.
Defined.

(** C2, at the input [/*], newline, [*/x]: the identifier [x] is the
    third character of line 2, and the token is reported at column 1;
    [skip_block_comment] moves the position over the opener and the
    closer and leaves the column where it was. *)
Theorem block_comment_column_drift :
  let source := "/*" +:+ String newline "*/x" in
  fst <$> next_token (LexicalAnalyzer_init source) =
    Some (Return (mkToken IDENTIFIER "x" 2 1)) ∧
  line_column_after ("/*" +:+ String newline "*/") = (2, 3).
Proof. split; by vm_compute. Qed.

(** C6. On the input [@], [next_token] raises the unexpected character
    error with line 1 and column 1; no token is returned, and none is
    collected by a full scan, which raises the same error. *)
Theorem unexpected_character_at_sign :
  ∃ self',
    next_token (LexicalAnalyzer_init "@") =
      Some (Raise (mkLexicalError "Unexpected character: @" 1 1), self') ∧
    analyze (LexicalAnalyzer_init "@") =
      Some (Raise (mkLexicalError "Unexpected character: @" 1 1), self') ∧
    tokens self' = [].
Proof. eexists. split_and!; [by vm_compute..|done]. Qed.

(** C7. The kinds of the tokens of [x <= y >= z == w != v && k || m], in
    order: every two-character operator is one token. Wherever the two
    characters under the cursor are one of the operators of [OPERATORS],
    [next_token] returns that operator as one token at the column of its
    first character, and never a token of one character. *)
Theorem operators_maximal_munch :
  kinds (analyze (LexicalAnalyzer_init "x <= y >= z == w != v && k || m")) =
    Some [IDENTIFIER; LE; IDENTIFIER; GE; IDENTIFIER; EQ; IDENTIFIER; NE;
          IDENTIFIER; AND; IDENTIFIER; OR; IDENTIFIER; EOF] ∧
  ∀ self c1 c2 rest t,
    remaining self = String c1 (String c2 rest) →
    dict_get OPERATORS (String c1 (String c2 "")) = Some t →
    next_token self =
      Some (Return (mkToken t (String c1 (String c2 ""))
                            (line self) (column self)),
            advance 2 self).
Proof. split; [by vm_compute|exact next_token_operator]. Qed.

Lemma operators_maximal_munch_witness :
  let self := LexicalAnalyzer_init "==1" in
  next_token self = Some (Return (mkToken EQ "==" 1 1), advance 2 self).
Proof.
  apply (proj2 operators_maximal_munch (LexicalAnalyzer_init "==1")
           "="%char "="%char "1" EQ); reflexivity.
Defined.

(** ** After the end of input *)

Lemma next_token_at_end self :
  remaining self = "" →
  next_token self =
    Some (Return (mkToken EOF "" (line self) (column self)), self).
Proof.
  intros E. unfold next_token. rewrite E. cbn [next_token_fuel String.length].
  by rewrite (skip_whitespace_at_end _ E), E.
Qed.

(** C8. Once [next_token] has returned the end-of-input token, every
    later call returns that same token again, raises nothing, and leaves
    the scanner as it was: position, line and column included. *)
Theorem end_of_input_idempotent self eof self' :
  next_token self = Some (Return eof, self') → tok_type eof = EOF →
  ∀ n, next_token_again n self' = Some (Return eof, self').
Proof.
  intros (skipped & lexeme & _ & _ & T)%next_token_reads Ty.
  destruct (T eof eq_refl) as (_ & Eo & _). destruct (Eo Ty) as [-> E].
  pose proof (next_token_at_end _ E) as N.
  induction n as [|n IH]; simpl; [done|]. by rewrite N.
Qed.

Lemma end_of_input_idempotent_witness :
  let self := LexicalAnalyzer_init (String newline " ") in
  let self' := track " " (track newline self) in
  let eof := mkToken EOF "" 2 2 in
  next_token self = Some (Return eof, self') ∧ tok_type eof = EOF ∧
  next_token_again 3 self' = Some (Return eof, self').
Proof.
  assert (N : next_token (LexicalAnalyzer_init (String newline " ")) =
              Some (Return (mkToken EOF "" 2 2),
                    track " " (track newline
                      (LexicalAnalyzer_init (String newline " ")))))
    by reflexivity.
  split_and!; [exact N|reflexivity|].
  apply (end_of_input_idempotent _ _ _ N eq_refl 3).
Defined.

(** ** The token sequence *)

Lemma filter_EOF_nil body :
  Forall (λ tok, tok_type tok ≠ EOF) body →
  filter (λ tok, tok_type tok = EOF) body = [].
Proof.
  induction 1 as [|tok body H _ IH]; [done|].
  by rewrite filter_cons_False.
Qed.

(** C9. A full scan always comes to an end, and when it does not raise,
    the sequence it returns ends with the end-of-input token: that token
    is its last element and occurs in it exactly once. *)
Theorem analyze_ends_with_eof source :
  is_Some (analyze (LexicalAnalyzer_init source)) ∧
  ∀ toks self',
    analyze (LexicalAnalyzer_init source) = Some (Return toks, self') →
    ∃ body eof,
      toks = body ++ [eof] ∧ tok_type eof = EOF ∧
      Forall (λ tok, tok_type tok ≠ EOF) body ∧
      last toks = Some eof ∧
      length (filter (λ tok, tok_type tok = EOF) toks) = 1.
Proof.
  split; [apply analyze_total|]. intros toks self' H.
  destruct (analyze_fuel_spec _ _ _ _ H) as (new & Tn & _ & _ & _ & R).
  destruct (R toks eq_refl) as (-> & _ & body & eof & -> & Te & Fb).
  simpl in Tn. exists body, eof. rewrite Tn.
  split_and!; [done|done|done|by rewrite last_snoc|].
  by rewrite filter_app, (filter_EOF_nil _ Fb), filter_cons_True.
Qed.

Lemma analyze_ends_with_eof_witness :
  ∃ body eof,
    [mkToken INT_LIT "7" 1 1; mkToken SEMICOLON ";" 1 2; mkToken EOF "" 1 3]
      = body ++ [eof] ∧ tok_type eof = EOF ∧
    Forall (λ tok, tok_type tok ≠ EOF) body ∧
    last [mkToken INT_LIT "7" 1 1; mkToken SEMICOLON ";" 1 2;
          mkToken EOF "" 1 3] = Some eof ∧
    length (filter (λ tok, tok_type tok = EOF)
              [mkToken INT_LIT "7" 1 1; mkToken SEMICOLON ";" 1 2;
               mkToken EOF "" 1 3]) = 1.
Proof.
  eapply (proj2 (analyze_ends_with_eof "7;")). vm_compute. reflexivity.
Defined.

(** ** The symbol table *)

Lemma lookup_insert_table st k i n :
  SymbolTable.lookup (SymbolTable.insert st k i) n =
  if decide (k = n) then Some i else SymbolTable.lookup st n.
Proof.
  destruct st as [syms par nm]. simpl. rewrite lookup_insert.
  by destruct (decide (k = n)).
Qed.

(** An entry that is there stays as it is. *)
Lemma register_lookup_Some st o n i :
  SymbolTable.lookup st n = Some i →
  SymbolTable.lookup (register st o) n = Some i.
Proof.
  intros H. destruct o as [tok|e]; [|done]. simpl.
  destruct (decide (tok_type tok = IDENTIFIER)); [|done].
  destruct (SymbolTable.lookup st (tok_value tok)) eqn:L; [done|].
  rewrite lookup_insert_table. destruct (decide (tok_value tok = n)); [|done].
  congruence.
Qed.

(** Only the name of an identifier token is given an entry. *)
Lemma register_lookup_other st o n :
  (∀ tok, o = Return tok → tok_type tok = IDENTIFIER → tok_value tok ≠ n) →
  SymbolTable.lookup (register st o) n = SymbolTable.lookup st n.
Proof.
  intros H. destruct o as [tok|e]; [|done]. simpl.
  destruct (decide (tok_type tok = IDENTIFIER)) as [Ty|]; [|done].
  destruct (SymbolTable.lookup st (tok_value tok)) eqn:L; [done|].
  rewrite lookup_insert_table. by rewrite decide_False by by apply H.
Qed.

Lemma registered_lookup_Some st ts n i :
  SymbolTable.lookup st n = Some i →
  SymbolTable.lookup (registered st ts) n = Some i.
Proof.
  revert st. induction ts as [|tok ts IH]; intros st H; [done|].
  apply (IH (register st (Return tok))), register_lookup_Some, H.
Qed.

Lemma registered_lookup_None st ts n :
  SymbolTable.lookup st n = None →
  (Exists (identifier_of n) ts →
   SymbolTable.lookup (registered st ts) n =
     Some (SymbolInfo_init n "unknown")) ∧
  (¬ Exists (identifier_of n) ts →
   SymbolTable.lookup (registered st ts) n = None).
Proof.
  revert st. induction ts as [|tok ts IH]; intros st H.
  { split; [by intros ?%Exists_nil|done]. }
  cbn [registered foldl]. fold (registered (register st (Return tok)) ts).
  destruct (decide (identifier_of n tok)) as [[Ty V]|No].
  - assert (L : SymbolTable.lookup (register st (Return tok)) n
                = Some (SymbolInfo_init n "unknown")).
    { simpl. rewrite decide_True by done. rewrite V, H.
      by rewrite lookup_insert_table, decide_True. }
    split; [intros _; by apply registered_lookup_Some|].
    intros []. by left.
  - assert (L : SymbolTable.lookup (register st (Return tok)) n = None).
    { rewrite register_lookup_other; [done|].
      intros ? [= <-] Ty V. by apply No. }
    destruct (IH _ L) as [IH1 IH2]. split.
    + intros [?|?]%Exists_cons; [done|by apply IH1].
    + intros N. apply IH2. intros ?. apply N. by right.
Qed.

Lemma lookup_built_in source n :
  SymbolTable.lookup (symbol_table (LexicalAnalyzer_init source)) n =
  if decide (n = "write") then Some write_info
  else if decide (n = "read") then Some read_info else None.
Proof.
  simpl. rewrite lookup_insert.
  destruct (decide ("write" = n)) as [<-|N1]; [done|].
  rewrite decide_False by done. rewrite lookup_insert.
  destruct (decide ("read" = n)) as [<-|N2]; [done|].
  by rewrite decide_False by done.
Qed.



(** C4, as the specification states it, fails for the built-in names:
    [read] is not a keyword, and its first occurrence in a source inserts
    nothing; the entry found under [read] is the function entry made
    before the scan, not one of declared type [unknown]. *)
Lemma first_occurrence_of_read_inserts_nothing :
  ∃ self',
    analyze (LexicalAnalyzer_init "read") =
      Some (Return [mkToken IDENTIFIER "read" 1 1; mkToken EOF "" 1 5], self') ∧
    dict_get KEYWORDS "read" = None ∧
    symbol_table self' = symbol_table (LexicalAnalyzer_init "read") ∧
    info_type <$> SymbolTable.lookup (symbol_table self') "read"
      = Some "function" ∧
    info_type <$> SymbolTable.lookup (symbol_table self') "read"
      ≠ Some "unknown".
Proof. eexists. split; [vm_compute; reflexivity|]. by vm_compute. Qed.

Lemma next_token_first_occurrence self tok self' :
  next_token self = Some (Return tok, self') →
  tok_type tok = IDENTIFIER →
  SymbolTable.lookup (symbol_table self) (tok_value tok) = None →
  symbol_table self' =
    SymbolTable.insert (symbol_table self) (tok_value tok)
      (SymbolInfo_init (tok_value tok) "unknown").
Proof.
  intros (_ & _ & _ & -> & _)%next_token_reads Ty L. simpl.
  by rewrite decide_True, L.
Qed.

Lemma next_token_keeps_entries self o self' name info :
  next_token self = Some (o, self') →
  SymbolTable.lookup (symbol_table self) name = Some info →
  SymbolTable.lookup (symbol_table self') name = Some info.
Proof.
  intros (_ & _ & _ & -> & _)%next_token_reads L.
  by apply register_lookup_Some.
Qed.

Lemma next_token_keyword self tok self' :
  next_token self = Some (Return tok, self') →
  dict_get KEYWORDS (tok_value tok) ≠ None →
  tok_type tok ≠ IDENTIFIER ∧ symbol_table self' = symbol_table self.
Proof.
  intros (skipped & lexeme & _ & ST & T)%next_token_reads K.
  destruct (T tok eq_refl) as (_ & _ & _ & Id).
  assert (Ty : tok_type tok ≠ IDENTIFIER) by (intros ?; by apply K, Id).
  split; [done|]. rewrite ST. by apply register_other.
Qed.

Lemma analyze_symbol_table source r self' name :
  analyze (LexicalAnalyzer_init source) = Some (r, self') →
  name ≠ "read" → name ≠ "write" →
  (Exists (identifier_of name) (tokens self') →
   SymbolTable.lookup (symbol_table self') name =
     Some (SymbolInfo_init name "unknown")) ∧
  (¬ Exists (identifier_of name) (tokens self') →
   SymbolTable.lookup (symbol_table self') name = None) ∧
  (dict_get KEYWORDS name ≠ None →
   SymbolTable.lookup (symbol_table self') name = None).
Proof.
  intros H Nr Nw.
  destruct (analyze_fuel_spec _ _ _ _ H) as (new & Tn & _ & ST & Ok & _).
  simpl in Tn. rewrite Tn, ST.
  assert (L : SymbolTable.lookup (symbol_table (LexicalAnalyzer_init source)) name
              = None).
  { rewrite lookup_built_in. by rewrite !decide_False. }
  destruct (registered_lookup_None _ new name L) as [In Out].
  split_and!; [done|done|].
  intros K. apply Out. intros (tok & Hin & Ty & V)%Exists_exists.
  rewrite Forall_forall in Ok. destruct (Ok tok Hin) as (Id & _).
  apply K. rewrite <- V. by apply Id.
Qed.

(** C4, amended. A call of [next_token] that returns an identifier token
    whose name has no entry yet inserts the entry of that name with
    declared type [unknown]; no call changes an entry that is there, so
    later occurrences of a name overwrite nothing, and the entries of
    [read] and [write] made before the scan make their first occurrence
    insert nothing; a token whose text is a keyword ([true] and [false]
    included) is never an identifier token and leaves the table as it is.
    After a full scan, a name other than [read] and [write] has the
    [unknown] entry exactly when an identifier token of that name was
    collected, and a keyword has no entry. For [int x; int x;] the table
    holds [x] once, with [read] and [write], and does not hold [int]. *)
Theorem identifier_registration :
  (∀ self tok self',
     next_token self = Some (Return tok, self') →
     tok_type tok = IDENTIFIER →
     SymbolTable.lookup (symbol_table self) (tok_value tok) = None →
     symbol_table self' =
       SymbolTable.insert (symbol_table self) (tok_value tok)
         (SymbolInfo_init (tok_value tok) "unknown")) ∧
  (∀ self o self' name info,
     next_token self = Some (o, self') →
     SymbolTable.lookup (symbol_table self) name = Some info →
     SymbolTable.lookup (symbol_table self') name = Some info) ∧
  (∀ self tok self',
     next_token self = Some (Return tok, self') →
     dict_get KEYWORDS (tok_value tok) ≠ None →
     tok_type tok ≠ IDENTIFIER ∧ symbol_table self' = symbol_table self) ∧
  (∀ source r self' name,
     analyze (LexicalAnalyzer_init source) = Some (r, self') →
     name ≠ "read" → name ≠ "write" →
     (Exists (identifier_of name) (tokens self') →
      SymbolTable.lookup (symbol_table self') name =
        Some (SymbolInfo_init name "unknown")) ∧
     (¬ Exists (identifier_of name) (tokens self') →
      SymbolTable.lookup (symbol_table self') name = None) ∧
     (dict_get KEYWORDS name ≠ None →
      SymbolTable.lookup (symbol_table self') name = None)) ∧
  (∃ toks self',
     analyze (LexicalAnalyzer_init "int x; int x;") = Some (Return toks, self') ∧
     SymbolTable.symbols (symbol_table self') =
       <["x" := SymbolInfo_init "x" "unknown"]>
         (SymbolTable.symbols (symbol_table (LexicalAnalyzer_init ""))) ∧
     length (filter (λ entry, entry.1 = "x")
               (map_to_list (SymbolTable.symbols (symbol_table self')))) = 1 ∧
     SymbolTable.lookup (symbol_table self') "int" = None).
Proof.
  split; [exact next_token_first_occurrence|].
  split; [exact next_token_keeps_entries|].
  split; [exact next_token_keyword|].
  split; [exact analyze_symbol_table|].
  eexists _, _. split; [vm_compute; reflexivity|]. by vm_compute.
Qed.

Lemma identifier_registration_witness :
  ∃ r self',
    analyze (LexicalAnalyzer_init "int x; int x;") = Some (r, self') ∧
    SymbolTable.lookup (symbol_table self') "x" =
      Some (SymbolInfo_init "x" "unknown") ∧
    SymbolTable.lookup (symbol_table self') "int" = None.
Proof.
  pose proof (proj1 (proj2 (proj2 (proj2 identifier_registration)))
                "int x; int x;") as T.
  destruct (analyze (LexicalAnalyzer_init "int x; int x;"))
    as [[r self']|] eqn:H; [|by vm_compute in H].
  exists r, self'. split; [done|]. split.
  - apply (T r self' "x" eq_refl); [discriminate..|].
    vm_compute in H. injection H as _ <-.
    apply Exists_cons_tl, Exists_cons_hd. by split.
  - apply (T r self' "int" eq_refl); [discriminate..|discriminate].
Defined.

(** * Further properties *)

(** ** Scopes *)

(** X1. [insert] then [lookup] of the same name gives the inserted entry,
    whatever the table held; every other name is looked up as before; a
    second [insert] of the name replaces the first; the parent and the
    name of the table are untouched. *)
Theorem symbol_table_insert_lookup st k i :
  SymbolTable.lookup (SymbolTable.insert st k i) k = Some i ∧
  (∀ n, n ≠ k →
     SymbolTable.lookup (SymbolTable.insert st k i) n = SymbolTable.lookup st n) ∧
  (∀ j, SymbolTable.insert (SymbolTable.insert st k i) k j
        = SymbolTable.insert st k j) ∧
  SymbolTable.parent (SymbolTable.insert st k i) = SymbolTable.parent st ∧
  SymbolTable.name (SymbolTable.insert st k i) = SymbolTable.name st.
Proof.
  destruct st as [syms par nm]. split_and!; [| | |done..].
  - simpl. by rewrite lookup_insert_eq.
  - intros n N. simpl. by rewrite lookup_insert_ne.
  - intros j. unfold SymbolTable.insert. simpl. by rewrite insert_insert_eq.
Qed.

Lemma symbol_table_insert_lookup_witness :
  let st := SymbolTable.insert (SymbolTable.init "global") "x"
              (SymbolInfo_init "x" "int") in
  SymbolTable.lookup (SymbolTable.insert st "y" (SymbolInfo_init "y" "bool")) "x"
  = SymbolTable.lookup st "x".
Proof.
  apply (proj1 (proj2 (symbol_table_insert_lookup
           (SymbolTable.insert (SymbolTable.init "global") "x"
              (SymbolInfo_init "x" "int"))
           "y" (SymbolInfo_init "y" "bool"))) "x").
  discriminate.
Defined.

(** X2. [lookup] walks the scopes from the innermost outwards: it finds
    nothing exactly when no scope of the chain holds the name, and an
    entry it finds is the one of the innermost scope that holds the name,
    every scope inside that one not holding it. *)
Theorem lookup_innermost_scope st n :
  (SymbolTable.lookup st n = None ↔
   Forall (λ syms : gmap string SymbolInfo, syms !! n = None) (scopes st)) ∧
  (∀ i, SymbolTable.lookup st n = Some i →
     ∃ inner syms outer,
       scopes st = inner ++ syms :: outer ∧ syms !! n = Some i ∧
       Forall (λ syms' : gmap string SymbolInfo, syms' !! n = None) inner).
Proof.
  revert st. fix IH 1. intros [syms par nm]. simpl.
  destruct (syms !! n) as [i|] eqn:L.
  - split.
    + split; [done|]. intros H%Forall_cons_1. destruct H; congruence.
    + intros ? [= <-]. exists [], syms. eexists. by split_and!.
  - destruct par as [p|].
    + destruct (IH p) as [N S]. split.
      * rewrite N. split; [by constructor|]. by intros [_ ?]%Forall_cons_1.
      * intros i (inner & syms' & outer & E & Hs & Hi)%S.
        exists (syms :: inner), syms', outer. rewrite E.
        split_and!; [done|done|by constructor].
    + split; [split; [by repeat constructor|done]|done].
Qed.

Lemma lookup_innermost_scope_witness :
  let outer := SymbolTable.insert (SymbolTable.init "global") "x"
                 (SymbolInfo_init "x" "int") in
  let inner := SymbolTable.mk ∅ (Some outer) "block" in
  ∃ before syms after,
    scopes inner = before ++ syms :: after ∧
    syms !! "x" = Some (SymbolInfo_init "x" "int") ∧
    Forall (λ syms' : gmap string SymbolInfo, syms' !! "x" = None) before.
Proof.
  apply (proj2 (lookup_innermost_scope
           (SymbolTable.mk ∅
              (Some (SymbolTable.insert (SymbolTable.init "global") "x"
                       (SymbolInfo_init "x" "int"))) "block") "x")).
  reflexivity.
Defined.

(** ** The character classes *)

(** Turn a test on the code of a character into inequalities. *)
Ltac class_facts H :=
  unfold isspace, isdigit, isalpha, isalnum, code_in in H;
  rewrite ?orb_true_iff, ?andb_true_iff, ?Nat.leb_le in H.

Lemma isalpha_not_digit c : isalpha c = true → isdigit c = false.
Proof.
  intros H. apply not_true_iff_false. intros G.
  class_facts H. class_facts G. lia.
Qed.

Lemma isalpha_not_space c : isalpha c = true → isspace c = false.
Proof.
  intros H. apply not_true_iff_false. intros G.
  class_facts H. class_facts G. lia.
Qed.

Lemma word_start_class c :
  isalpha c || Ascii.eqb c "_" = true →
  isdigit c = false ∧ isspace c = false ∧ Ascii.eqb c "/" = false.
Proof.
  intros [H|H%Ascii.eqb_eq]%orb_true_iff; [|by subst c].
  split_and!; [by apply isalpha_not_digit|by apply isalpha_not_space|].
  destruct (Ascii.eqb_spec c "/") as [->|]; [by vm_compute in H|done].
Qed.

Lemma isspace_newline c : Ascii.eqb c newline = true → isspace c = true.
Proof. by intros ->%Ascii.eqb_eq. Qed.

(** ** One call, from the text under the cursor *)

(** At a character that is not whitespace and opens no comment,
    [next_token] is [scan_token]. *)
Lemma next_token_scan self c rest :
  remaining self = String c rest → isspace c = false →
  comment_at (String c rest) = false →
  next_token self = Some (scan_token c rest self).
Proof.
  intros E Sp C. unfold next_token. rewrite E.
  cbn [next_token_fuel String.length].
  rewrite (skip_whitespace_stop _ _ _ E Sp), E.
  destruct (Ascii.eqb c "/") eqn:Sl; [|done].
  destruct rest as [|c' rest]; [done|]. simpl in C. rewrite Sl in C.
  simpl in C. by apply orb_false_iff in C as [-> ->].
Qed.

Lemma comment_at_not_slash c r :
  Ascii.eqb c "/" = false → comment_at (String c r) = false.
Proof. intros H. destruct r; [done|]. simpl. by rewrite H. Qed.

Lemma scan_identifier_loop_word w rest identifier self :
  str_forall word_char w = true →
  scan_identifier_loop (w +:+ rest) identifier self =
  scan_identifier_loop rest (identifier +:+ w) (advance (String.length w) self).
Proof.
  revert identifier self. induction w as [|c w IH]; intros identifier self Hw.
  - by rewrite str_app_nil_l, str_app_nil_r, advance_0.
  - simpl in Hw. apply andb_true_iff in Hw as [Hc Hw]. unfold word_char in Hc.
    rewrite str_app_cons. simpl. rewrite Hc, (IH _ _ Hw), advance_consume.
    by rewrite str_app_assoc.
Qed.

Lemma scan_identifier_loop_stop rest identifier self :
  next_is word_char rest = false →
  scan_identifier_loop rest identifier self = (identifier, self).
Proof.
  destruct rest as [|c rest]; [done|]. simpl. unfold word_char. by intros ->.
Qed.

(** X3. A word is read whole. When the text under the cursor is a letter
    or an underscore followed by letters, digits and underscores, and the
    character after them is none of these, [next_token] returns one token
    of exactly that text, carrying the line and column the scanner holds
    at that call: the keyword token when the text is a key of [KEYWORDS],
    an identifier token otherwise; the cursor has moved over the word and
    the symbol table is the one the token registers. *)
Theorem word_is_one_token self c w rest :
  remaining self = String c w +:+ rest →
  isalpha c || Ascii.eqb c "_" = true →
  str_forall word_char w = true → next_is word_char rest = false →
  let tok := mkToken (default IDENTIFIER (dict_get KEYWORDS (String c w)))
                     (String c w) (line self) (column self) in
  next_token self =
    Some (Return tok,
          set_symbol_table (advance (String.length (String c w)) self)
            (register (symbol_table self) (Return tok))).
Proof.
  intros E Hc Hw Hr tok.
  destruct (word_start_class _ Hc) as (D & Sp & Sl).
  rewrite str_app_cons in E.
  rewrite (next_token_scan _ _ _ E Sp) by by apply comment_at_not_slash.
  unfold scan_token. rewrite D, Hc. unfold scan_identifier.
  rewrite E, <- str_app_cons.
  assert (Hcw : str_forall word_char (String c w) = true).
  { simpl. rewrite Hw, andb_true_r. unfold word_char.
    apply orb_true_iff in Hc as [H%isalpha_isalnum| ->];
      [by rewrite H|by rewrite orb_true_r]. }
  rewrite (scan_identifier_loop_word _ _ _ _ Hcw), str_app_nil_l.
  rewrite (scan_identifier_loop_stop _ _ _ Hr).
  subst tok. destruct (dict_get KEYWORDS (String c w)) as [kw|] eqn:K.
  - apply KEYWORDS_values in K as [K1 _]. by rewrite register_other.
  - cbn [default register tok_type tok_value]. rewrite decide_True by done.
    by destruct (SymbolTable.lookup _ _).
Qed.

Lemma word_is_one_token_witness :
  let self := LexicalAnalyzer_init "iffy=1" in
  next_token self =
    Some (Return (mkToken IDENTIFIER "iffy" 1 1),
          set_symbol_table (advance 4 self)
            (SymbolTable.insert (symbol_table self) "iffy"
               (SymbolInfo_init "iffy" "unknown"))).
Proof.
  apply (word_is_one_token (LexicalAnalyzer_init "iffy=1") "i" "ffy" "=1");
    reflexivity.
Defined.

Lemma scan_token_single c rest self :
  isdigit c = false → isalpha c || Ascii.eqb c "_" = false →
  operator_at (String c rest) = None →
  scan_token c rest self = single_character_token c self.
Proof.
  intros D A O. unfold scan_token. rewrite D, A.
  destruct rest as [|c' rest]; [done|]. simpl in O. by rewrite O.
Qed.

Lemma single_character_find t c :
  TokenType_value t = String c "" →
  List.find (fun token_type =>
               String.eqb (TokenType_value token_type) (String c ""))
            TokenType_members = Some t.
Proof. destruct t; intros H; simpl in H; simplify_eq; reflexivity. Qed.

Lemma single_character_class t c :
  TokenType_value t = String c "" →
  isspace c = false ∧ isdigit c = false ∧
  isalpha c || Ascii.eqb c "_" = false.
Proof. destruct t; intros H; simpl in H; simplify_eq; by vm_compute. Qed.

(** X4. A character that is the value of a member of [TokenType], and
    that starts neither a comment nor a two-character operator with the
    character after it, is returned as the token of that member, carrying
    the line and column the scanner holds at that call, and the cursor
    moves over that one character. *)
Theorem single_character_is_its_kind self t c rest :
  TokenType_value t = String c "" →
  remaining self = String c rest →
  comment_at (String c rest) = false →
  operator_at (String c rest) = None →
  next_token self =
    Some (Return (mkToken t (String c "") (line self) (column self)),
          consume self).
Proof.
  intros V E C O. destruct (single_character_class _ _ V) as (Sp & D & A).
  rewrite (next_token_scan _ _ _ E Sp C), (scan_token_single _ _ _ D A O).
  unfold single_character_token. rewrite (single_character_find _ _ V).
  by rewrite consume_column.
Qed.

Lemma single_character_is_its_kind_witness :
  let self := LexicalAnalyzer_init "=/2" in
  next_token self = Some (Return (mkToken EQUAL "=" 1 1), consume self) ∧
  next_token (consume self) =
    Some (Return (mkToken SLASH "/" 1 2), consume (consume self)).
Proof.
  split.
  - apply (single_character_is_its_kind (LexicalAnalyzer_init "=/2")
             EQUAL "=" "/2"); reflexivity.
  - apply (single_character_is_its_kind
             (consume (LexicalAnalyzer_init "=/2")) SLASH "/" "2");
      reflexivity.
Defined.

(** X5. A character that is not whitespace, not a digit, not a letter or
    an underscore, that starts no comment and no two-character operator,
    and that is the value of no member of [TokenType], is rejected:
    [next_token] raises the unexpected character error that names it,
    carrying the line and column the scanner holds at that call, with the
    cursor moved over it; a full scan that starts there raises the same
    error. *)
Theorem unexpected_character self c rest :
  remaining self = String c rest →
  isspace c = false → isdigit c = false →
  isalpha c || Ascii.eqb c "_" = false →
  comment_at (String c rest) = false →
  operator_at (String c rest) = None →
  (∀ t, TokenType_value t ≠ String c "") →
  let e := mkLexicalError ("Unexpected character: " +:+ String c "")
                          (line self) (column self) in
  next_token self = Some (Raise e, consume self) ∧
  analyze self = Some (Raise e, consume self).
Proof.
  intros E Sp D A C O V e.
  assert (N : next_token self = Some (Raise e, consume self)).
  { rewrite (next_token_scan _ _ _ E Sp C), (scan_token_single _ _ _ D A O).
    unfold single_character_token.
    destruct (List.find _ _) as [t|] eqn:F.
    - apply List.find_some in F as [_ F%String.eqb_eq]. by destruct (V t).
    - subst e. by rewrite consume_column. }
  split; [done|]. by apply analyze_raise.
Qed.

Lemma unexpected_character_witness :
  let self := LexicalAnalyzer_init "&x" in
  let e := mkLexicalError "Unexpected character: &" 1 1 in
  next_token self = Some (Raise e, consume self) ∧
  analyze self = Some (Raise e, consume self).
Proof.
  apply (unexpected_character (LexicalAnalyzer_init "&x") "&" "x");
    try reflexivity.
  intros t. destruct t; discriminate.
Defined.

(** ** Comments that do not end *)

Lemma line_column_from_track c self :
  line_column_from (line self) (column self) (String c "") =
  (line (track c self), column (track c self)).
Proof. simpl. unfold track. by destruct (Ascii.eqb c newline). Qed.

Lemma skip_block_comment_loop_unterminated body self :
  has_close body = false →
  ∃ self',
    skip_block_comment_loop body self =
      (Raise (mkLexicalError "Unterminated block comment"
                             (line self') (column self')), self') ∧
    (line self', column self') =
      line_column_from (line self) (column self) (but_last body).
Proof.
  revert self. induction body as [|c body IH]; intros self H.
  { by exists self. }
  destruct body as [|c' body]; [by exists self|].
  simpl in H. apply orb_false_iff in H as [Hc H].
  destruct (IH (track c self) H) as (self' & L & P).
  exists self'. split.
  - rewrite <- L. simpl. by rewrite Hc.
  - rewrite P. cbn [but_last line_column_from]. unfold track.
    by destruct (Ascii.eqb c newline).
Qed.

(** X6. A block comment that is opened and never closed is an error. When
    the text under the cursor is [/*] followed by a text without [*/],
    [next_token] raises the unterminated block comment error, and so does
    a full scan; the line and column of the error are those the scanner
    reaches from where it stood by tracking the text after the opener
    without its last character. *)
Theorem unterminated_block_comment self body :
  remaining self = "/*" +:+ body → has_close body = false →
  ∃ e self',
    next_token self = Some (Raise e, self') ∧
    analyze self = Some (Raise e, self') ∧
    err_message e = "Unterminated block comment" ∧
    (err_line e, err_column e) =
      line_column_from (line self) (column self) (but_last body).
Proof.
  intros E H.
  set (self1 := set_position self (position self + 2)).
  assert (E1 : remaining self1 = body) by by apply (remaining_next2 _ _ _ _ _ E).
  destruct (skip_block_comment_loop_unterminated body self1 H)
    as (self' & L & P).
  assert (N : next_token self =
    Some (Raise (mkLexicalError "Unterminated block comment"
                                (line self') (column self')), self')).
  { unfold next_token. rewrite E. cbn [next_token_fuel String.length].
    rewrite (skip_whitespace_stop _ "/" (String "*" body) E eq_refl), E.
    eval_tests. cbv iota. unfold skip_block_comment. fold self1.
    by rewrite E1, L. }
  eexists _, self'. split_and!; [done|by apply analyze_raise|done|done].
Qed.

Lemma unterminated_block_comment_witness :
  let self := LexicalAnalyzer_init ("x /* a" +:+ String newline "b*") in
  ∃ e self',
    next_token (advance 2 self) = Some (Raise e, self') ∧
    analyze (advance 2 self) = Some (Raise e, self') ∧
    err_message e = "Unterminated block comment" ∧
    (err_line e, err_column e) = (2, 2).
Proof.
  apply (unterminated_block_comment
           (advance 2 (LexicalAnalyzer_init ("x /* a" +:+ String newline "b*")))
           (" a" +:+ String newline "b*")); reflexivity.
Defined.

(** ** Lines and columns *)

Lemma line_column_from_app l c s t :
  line_column_from l c (s +:+ t) =
  line_column_from (line_column_from l c s).1 (line_column_from l c s).2 t.
Proof.
  revert l c. induction s as [|a s IH]; intros l c; [done|].
  rewrite str_app_cons. simpl. by destruct (Ascii.eqb a newline).
Qed.

(** The line does not depend on the column one starts at. *)
Lemma line_column_from_line l c c' s :
  (line_column_from l c s).1 = (line_column_from l c' s).1.
Proof.
  revert l c c'. induction s as [|a s IH]; intros l c c'; [done|].
  simpl. destruct (Ascii.eqb a newline); [done|apply IH].
Qed.

Lemma line_column_from_plain l c s :
  str_forall not_newline s = true →
  line_column_from l c s = (l, c + String.length s).
Proof.
  revert c. induction s as [|a s IH]; intros c H; simpl.
  { f_equal. lia. }
  simpl in H. apply andb_true_iff in H as [Ha H]. unfold not_newline in Ha.
  apply negb_true_iff in Ha. rewrite Ha, (IH _ H). f_equal. lia.
Qed.

(** Past a newline the column does not depend on the column one starts at. *)
Lemma line_column_from_newline l c c' s :
  str_forall not_newline s = false →
  line_column_from l c s = line_column_from l c' s.
Proof.
  revert c c'. induction s as [|a s IH]; intros c c' H; [done|].
  simpl in *. unfold not_newline in H.
  destruct (Ascii.eqb a newline); [done|]. by apply IH.
Qed.

Lemma line_column_from_step c s self :
  line_column_from (line self) (column self) (String c s) =
  line_column_from (line (track c self)) (column (track c self)) s.
Proof. simpl. unfold track. by destruct (Ascii.eqb c newline). Qed.

Lemma isspace_not_newline_false c : isspace c = false → not_newline c = true.
Proof.
  intros H. unfold not_newline. apply negb_true_iff.
  destruct (Ascii.eqb_spec c newline) as [->|]; [by vm_compute in H|done].
Qed.

Lemma tracks_refl self : tracks "" self self.
Proof. split_and!; [apply reads_refl|simpl; lia|done]. Qed.

Lemma tracks_trans t1 t2 a b c :
  tracks t1 a b → tracks t2 b c → tracks (t1 +:+ t2) a c.
Proof.
  intros (R1 & P1 & L1) (R2 & P2 & L2).
  split_and!; [by apply (reads_trans _ _ _ b)|rewrite str_length_app; lia|].
  rewrite line_column_from_app, L2, L1. apply line_column_from_line.
Qed.

Lemma tracks_track self c r :
  remaining self = String c r → tracks (String c "") self (track c self).
Proof.
  intros E. split_and!; [by apply (reads_track _ _ r)| |].
  - unfold track. by destruct (Ascii.eqb c newline).
  - by rewrite line_column_from_track.
Qed.

(** The cursor moved over a text without a newline by [advance], whatever
    happened to the symbol table. *)
Lemma tracks_advance txt r self st :
  remaining self = txt +:+ r → str_forall not_newline txt = true →
  tracks txt self (set_symbol_table (advance (String.length txt) self) st).
Proof.
  intros E H. split_and!.
  - split_and!; [done..|]. rewrite E. f_equal. symmetry.
    rewrite (remaining_plus self _ (String.length txt)); [|done..].
    by rewrite E, str_from_length.
  - done.
  - by rewrite (line_column_from_plain _ _ _ H).
Qed.

Lemma tracks_position self self' txt :
  tracks txt self self' →
  position self ≤ position self' ∧
  (position self ≤ String.length (source self) →
   position self' ≤ String.length (source self)).
Proof.
  intros (R%reads_length & P & _). split; [lia|].
  unfold remaining in R at 1. rewrite length_str_from in R. lia.
Qed.

(** ** The loops, with their positions *)

Lemma skip_whitespace_tracks self :
  ∃ ws, tracks ws self (skip_whitespace self) ∧
    str_forall isspace ws = true ∧
    (line (skip_whitespace self), column (skip_whitespace self)) =
      line_column_from (line self) (column self) ws.
Proof.
  unfold skip_whitespace.
  remember (remaining self) as rest eqn:E. symmetry in E. revert self E.
  induction rest as [|c rest IH]; intros self E; simpl.
  { exists "". split_and!; [apply tracks_refl|done..]. }
  destruct (isspace c) eqn:Hc; [|exists ""; split_and!; [apply tracks_refl|done..]].
  destruct (IH (track c self) (remaining_track _ _ _ E)) as (ws & T & Hws & P).
  exists (String c ws). split_and!.
  - apply (tracks_trans (String c "") ws _ _ _ (tracks_track _ _ _ E) T).
  - simpl. by rewrite Hc.
  - by rewrite P, line_column_from_step.
Qed.

Lemma skip_line_comment_loop_tracks rest self :
  remaining self = rest →
  let self' := skip_line_comment_loop rest self in
  ∃ body, tracks body self self' ∧ str_forall not_newline body = true ∧
    line_end (remaining self') ∧
    line self' = line self ∧ column self' = column self.
Proof.
  revert self. induction rest as [|c rest IH]; intros self E; simpl.
  { exists "". split_and!; [apply tracks_refl|done|by left; rewrite E|done..]. }
  destruct (Ascii.eqb c newline) eqn:Hc; simpl.
  { exists "". split_and!; [apply tracks_refl|done| |done..].
    right. exists rest. apply Ascii.eqb_eq in Hc. by subst c. }
  set (self1 := set_position self (position self + 1)).
  assert (E1 : remaining self1 = rest) by by apply (remaining_next _ _ _ _ E).
  destruct (IH self1 E1) as (body & T & Hb & Le & L & C).
  exists (String c body). split_and!; [|simpl; unfold not_newline; by rewrite Hc|done..].
  apply (tracks_trans (String c "") body self self1); [|done].
  split_and!; [by apply (reads_one _ _ _ _ E)|done|].
  simpl. by rewrite Hc.
Qed.

Lemma tracks_two self c c' r :
  remaining self = String c (String c' r) →
  not_newline c = true → not_newline c' = true →
  tracks (String c (String c' "")) self
    (set_position self (position self + 2)).
Proof.
  intros E Hc Hc'. split_and!; [by apply (reads_two _ _ _ _ _ E)|done|].
  rewrite line_column_from_plain; [done|]. simpl. by rewrite Hc, Hc'.
Qed.

(** A line comment is read up to the end of its line, and leaves the
    line and the column as they were. *)
Lemma skip_line_comment_tracks self r :
  remaining self = String "/" (String "/" r) →
  ∃ body, tracks ("//" +:+ body) self (skip_line_comment self) ∧
    str_forall not_newline body = true ∧
    line_end (remaining (skip_line_comment self)) ∧
    line (skip_line_comment self) = line self ∧
    column (skip_line_comment self) = column self.
Proof.
  intros E. unfold skip_line_comment.
  set (self1 := set_position self (position self + 2)).
  destruct (skip_line_comment_loop_tracks (remaining self1) self1 eq_refl)
    as (body & T & Hb & Le & L & C).
  exists body. split_and!; [|done..].
  apply (tracks_trans "//" body self self1); [|done].
  by apply (tracks_two _ _ _ _ E).
Qed.

Lemma has_close_cons c body :
  has_close (String c body) = false →
  has_close body = false ∧
  ∀ c' r, body = String c' r → Ascii.eqb c "*" && Ascii.eqb c' "/" = false.
Proof.
  simpl. destruct body as [|c' r]; [done|].
  intros [H1 H2]%orb_false_iff. split; [done|]. by intros ?? [= <- <-].
Qed.

Lemma has_close_intro c body :
  has_close body = false →
  (∀ c' r, body = String c' r → Ascii.eqb c "*" && Ascii.eqb c' "/" = false) →
  has_close (String c body) = false.
Proof.
  intros H1 H2. simpl. destruct body as [|c' r]; [done|].
  by rewrite (H2 c' r eq_refl), H1.
Qed.

(** The loop of [skip_block_comment]: when it returns it has read a text
    without closer and then the closer, and line and column are those of
    the text alone; when it raises, line and column are those of what it
    read, and the error carries them. *)
Lemma skip_block_comment_loop_tracks rest self o self' :
  remaining self = rest →
  skip_block_comment_loop rest self = (o, self') →
  ∃ body, has_close body = false ∧
    (line self', column self') =
      line_column_from (line self) (column self) body ∧
    symbol_table self' = symbol_table self ∧
    match o with
    | Return _ => tracks (body +:+ "*/") self self'
    | Raise e =>
        tracks body self self' ∧
        e = mkLexicalError "Unterminated block comment"
                           (line self') (column self')
    end.
Proof.
  revert self. induction rest as [|c rest IH]; intros self E; simpl.
  { intros [= <- <-]. exists "". do 3 (split; [done|]).
    split; [apply tracks_refl|done]. }
  destruct rest as [|c' rest].
  { intros [= <- <-]. exists "". do 3 (split; [done|]).
    split; [apply tracks_refl|done]. }
  destruct (Ascii.eqb c "*" && Ascii.eqb c' "/") eqn:Cl.
  - intros [= <- <-]. exists "". do 3 (split; [done|]).
    apply andb_true_iff in Cl as [->%Ascii.eqb_eq ->%Ascii.eqb_eq].
    by apply (tracks_two _ _ _ _ E).
  - intros H.
    destruct (IH (track c self) (remaining_track _ _ _ E) H)
      as (body & Hb & P & ST & O).
    assert (T1 := tracks_track _ _ _ E).
    assert (Hd : ∀ d r, body = String d r → d = c').
    { intros d r ->. destruct o as [u|e].
      - destruct O as ((_ & _ & R) & _). rewrite (remaining_track _ _ _ E) in R.
        by injection R as ->.
      - destruct O as [((_ & _ & R) & _) _].
        rewrite (remaining_track _ _ _ E) in R. by injection R as ->. }
    exists (String c body). split; [|split; [|split]].
    + apply has_close_intro; [done|]. intros d r Hr.
      by rewrite (Hd d r Hr).
    + by rewrite P, line_column_from_step.
    + by rewrite ST, symbol_table_track.
    + destruct o as [u|e].
      * apply (tracks_trans (String c "") _ _ _ _ T1 O).
      * destruct O as [O ->]. split; [|done].
        apply (tracks_trans (String c "") _ _ _ _ T1 O).
Qed.

Lemma skip_block_comment_tracks self r o self' :
  remaining self = String "/" (String "*" r) →
  skip_block_comment self = (o, self') →
  ∃ body, has_close body = false ∧
    (line self', column self') =
      line_column_from (line self) (column self) body ∧
    symbol_table self' = symbol_table self ∧
    match o with
    | Return _ => tracks ("/*" +:+ body +:+ "*/") self self'
    | Raise e =>
        tracks ("/*" +:+ body) self self' ∧
        e = mkLexicalError "Unterminated block comment"
                           (line self') (column self')
    end.
Proof.
  intros E. unfold skip_block_comment.
  set (self1 := set_position self (position self + 2)). intros H.
  destruct (skip_block_comment_loop_tracks _ _ _ _ eq_refl H)
    as (body & Hb & P & ST & O).
  assert (T1 : tracks "/*" self self1) by by apply (tracks_two _ _ _ _ E).
  exists body. do 3 (split; [done|]).
  destruct o as [u|e].
  - apply (tracks_trans "/*" _ _ _ _ T1 O).
  - destruct O as [O ->]. split; [|done].
    apply (tracks_trans "/*" _ _ _ _ T1 O).
Qed.

(** ** The scanners, with their positions *)

Lemma scan_number_loop_advance rest number is_float self number' is_float' self' :
  scan_number_loop rest number is_float self = (number', is_float', self') →
  ∃ txt r, rest = txt +:+ r ∧ number' = number +:+ txt ∧
    self' = advance (String.length txt) self ∧
    str_forall (λ c, isdigit c || Ascii.eqb c ".") txt = true.
Proof.
  revert number is_float self.
  induction rest as [|c rest IH]; intros number is_float self; simpl.
  { intros [= <- <- <-]. exists "", "".
    split_and!; [done|by rewrite str_app_nil_r|by rewrite advance_0|done]. }
  assert (Step : ∀ fl, isdigit c || Ascii.eqb c "." = true →
    scan_number_loop rest (number +:+ String c "") fl (consume self)
      = (number', is_float', self') →
    ∃ txt r, String c rest = txt +:+ r ∧ number' = number +:+ txt ∧
      self' = advance (String.length txt) self ∧
      str_forall (λ c, isdigit c || Ascii.eqb c ".") txt = true).
  { intros fl Hc (txt & r & -> & -> & -> & Ht)%IH.
    exists (String c txt), r. split_and!; [done| | |].
    - by rewrite str_app_assoc.
    - by rewrite advance_consume.
    - simpl. by rewrite Hc, Ht. }
  destruct (isdigit c) eqn:D; [by apply Step|].
  destruct (Ascii.eqb c "." && negb is_float) eqn:Dot.
  { apply Step. by apply andb_true_iff in Dot as [-> _]. }
  intros [= <- <- <-]. exists "", (String c rest).
  split_and!; [done|by rewrite str_app_nil_r|by rewrite advance_0|done].
Qed.

Lemma scan_identifier_loop_advance rest identifier self identifier' self' :
  scan_identifier_loop rest identifier self = (identifier', self') →
  ∃ txt r, rest = txt +:+ r ∧ identifier' = identifier +:+ txt ∧
    self' = advance (String.length txt) self ∧
    str_forall word_char txt = true.
Proof.
  revert identifier self.
  induction rest as [|c rest IH]; intros identifier self; simpl.
  { intros [= <- <-]. exists "", "".
    split_and!; [done|by rewrite str_app_nil_r|by rewrite advance_0|done]. }
  destruct (isalnum c || Ascii.eqb c "_") eqn:Hc.
  - intros (txt & r & -> & -> & -> & Ht)%IH.
    exists (String c txt), r. split_and!; [done| | |].
    + by rewrite str_app_assoc.
    + by rewrite advance_consume.
    + simpl. unfold word_char at 1. by rewrite Hc, Ht.
  - intros [= <- <-]. exists "", (String c rest).
    split_and!; [done|by rewrite str_app_nil_r|by rewrite advance_0|done].
Qed.

Lemma str_forall_impl (P Q : ascii → bool) s :
  (∀ c, P c = true → Q c = true) →
  str_forall P s = true → str_forall Q s = true.
Proof.
  intros H. induction s as [|c s IH]; [done|]. simpl.
  intros [Hc Hs]%andb_true_iff. by rewrite (H _ Hc), IH.
Qed.

Lemma number_char_not_newline c :
  isdigit c || Ascii.eqb c "." = true → not_newline c = true.
Proof.
  intros H. unfold not_newline. apply negb_true_iff.
  destruct (Ascii.eqb_spec c newline) as [->|]; [by vm_compute in H|done].
Qed.

Lemma word_char_not_newline c : word_char c = true → not_newline c = true.
Proof.
  intros H. unfold not_newline. apply negb_true_iff.
  destruct (Ascii.eqb_spec c newline) as [->|]; [by vm_compute in H|done].
Qed.

(** [scan_token] moves the cursor over the text it scans, which has no
    newline, on one line; a token and an error carry the line and column
    the cursor started at. *)
Lemma scan_token_tracks char rest self o self' :
  remaining self = String char rest → isspace char = false →
  scan_token char rest self = (o, self') →
  ∃ txt, tracks (String char txt) self self' ∧
    str_forall not_newline (String char txt) = true ∧
    line self' = line self ∧
    column self' = column self + String.length (String char txt) ∧
    match o with
    | Return tok => token_at self (String char txt) tok
    | Raise e =>
        err_line e = line self ∧ err_column e = column self ∧
        (err_message e = "Invalid float literal" ∨
         err_message e = "Unexpected character: " +:+ String char "")
    end.
Proof.
  intros E Sp. pose proof (isspace_not_newline_false _ Sp) as Nl.
  assert (Fin : ∀ txt r st, rest = txt +:+ r →
    str_forall not_newline txt = true →
    self' = set_symbol_table (advance (String.length (String char txt)) self) st →
    tracks (String char txt) self self' ∧
    str_forall not_newline (String char txt) = true ∧
    line self' = line self ∧
    column self' = column self + String.length (String char txt)).
  { intros txt r st Hr Ht ->.
    assert (Hct : str_forall not_newline (String char txt) = true)
      by (simpl; by rewrite Nl, Ht).
    split_and!; [|done..]. apply (tracks_advance _ r); [|done].
    by rewrite E, Hr. }
  unfold scan_token. destruct (isdigit char) eqn:D.
  { unfold scan_number. rewrite E. simpl. rewrite D.
    destruct (scan_number_loop rest _ false (consume self))
      as [[number is_float] self1] eqn:L.
    apply scan_number_loop_advance in L as (txt & r & Hr & -> & -> & Ht).
    rewrite advance_consume.
    change (("" +:+ String char "") +:+ txt) with (String char txt).
    apply (str_forall_impl _ not_newline _ number_char_not_newline) in Ht.
    intros H. exists txt.
    destruct (Fin txt r (symbol_table self) Hr Ht) as (T & N & Ln & Cl).
    { destruct is_float; [destruct (endswith _ _)|]; by simplify_eq. }
    do 4 (split; [done|]).
    destruct is_float; [destruct (endswith _ _)|]; simplify_eq;
      [by split_and!; [..|left]|done..]. }
  destruct (isalpha char || Ascii.eqb char "_") eqn:A.
  { unfold scan_identifier. rewrite E. simpl.
    assert (Hc' : isalnum char || Ascii.eqb char "_" = true).
    { apply orb_true_iff in A as [H%isalpha_isalnum| ->];
        [by rewrite H|by rewrite orb_true_r]. }
    rewrite Hc'.
    destruct (scan_identifier_loop rest _ (consume self))
      as [identifier self1] eqn:L.
    apply scan_identifier_loop_advance in L as (txt & r & Hr & -> & -> & Ht).
    rewrite advance_consume.
    change (("" +:+ String char "") +:+ txt) with (String char txt).
    apply (str_forall_impl _ not_newline _ word_char_not_newline) in Ht.
    intros H. exists txt.
    destruct (dict_get KEYWORDS (String char txt)) as [kw|].
    - injection H as <- <-.
      destruct (Fin txt r (symbol_table self) Hr Ht) as (T & N & Ln & Cl);
        [done|]. by do 4 (split; [done|]).
    - injection H as <- <-.
      destruct (SymbolTable.lookup _ _).
      + destruct (Fin txt r (symbol_table self) Hr Ht) as (T & N & Ln & Cl);
          [done|]. by do 4 (split; [done|]).
      + edestruct (Fin txt r) as (T & N & Ln & Cl); [done|done|reflexivity|].
        by do 4 (split; [done|]). }
  assert (Single : single_character_token char self = (o, self') →
    ∃ txt, tracks (String char txt) self self' ∧
      str_forall not_newline (String char txt) = true ∧
      line self' = line self ∧
      column self' = column self + String.length (String char txt) ∧
      match o with
      | Return tok => token_at self (String char txt) tok
      | Raise e =>
          err_line e = line self ∧ err_column e = column self ∧
          (err_message e = "Invalid float literal" ∨
           err_message e = "Unexpected character: " +:+ String char "")
      end).
  { unfold single_character_token. intros H. exists "".
    destruct (Fin "" rest (symbol_table self) eq_refl eq_refl) as (T & N & Ln & Cl).
    { by destruct (List.find _ _); simplify_eq. }
    do 4 (split; [done|]).
    destruct (List.find _ _); simplify_eq; simpl.
    - repeat split; simpl; lia.
    - split_and!; [done|lia|by right]. }
  destruct rest as [|char2 rest]; [done|].
  destruct (dict_get OPERATORS _) as [op_type|] eqn:O; [|done].
  intros [= <- <-]. exists (String char2 "").
  assert (N2 : not_newline char2 = true).
  { apply dict_get_In in O. unfold OPERATORS in O. simpl in O.
    destruct_or!; by simplify_eq. }
  destruct (Fin (String char2 "") rest (symbol_table self) eq_refl)
    as (T & N & Ln & Cl); [by simpl; rewrite N2|done|].
  do 4 (split; [done|]). repeat split; simpl; lia.
Qed.

(** ** One call, with its positions *)

Lemma insignificant_spaces ws g :
  str_forall isspace ws = true → insignificant g → insignificant (ws +:+ g).
Proof.
  induction ws as [|c ws IH]; [done|]. simpl.
  intros [Hc Hws]%andb_true_iff Hg. rewrite str_app_cons.
  apply ins_space; auto.
Qed.

Lemma insignificant_only_spaces ws :
  str_forall isspace ws = true → insignificant ws.
Proof.
  intros H. rewrite <- (str_app_nil_r ws).
  apply (insignificant_spaces ws "" H), ins_end.
Qed.

Lemma line_end_gap s gap value rem :
  line_end s → s = (gap +:+ value) +:+ rem →
  next_is isspace value = false → (value = "" → rem = "") →
  line_end gap.
Proof.
  intros [->|[s' ->]] E Sp Em.
  - destruct gap; [by left|done].
  - destruct gap as [|g0 gap].
    + destruct value as [|v0 value].
      * rewrite (Em eq_refl) in E. done.
      * injection E as <- _. by vm_compute in Sp.
    + injection E as <- _. right. by eexists.
Qed.

Lemma str_forall_isspace_slash ws x :
  str_forall isspace (ws +:+ String "/" x) = false.
Proof.
  rewrite str_forall_app. simpl.
  change (isspace "/") with false. by rewrite andb_false_r.
Qed.

(** What a call of [next_token] comes to, with the positions: the text
    read, what separates it from the token, and where the token and the
    error are placed. *)
Lemma next_token_spec_tracks self res :
  next_token_spec self res →
  ∃ txt, tracks txt self res.2 ∧
    match res.1 with
    | Return tok =>
        ∃ gap, txt = gap +:+ tok_value tok ∧ insignificant gap ∧
          str_forall not_newline (tok_value tok) = true ∧
          next_is isspace (tok_value tok) = false ∧
          (tok_value tok = "" → remaining res.2 = "") ∧
          tok_line tok = line res.2 ∧
          (str_forall isspace gap = true →
           (tok_line tok, tok_column tok) =
             line_column_from (line self) (column self) gap ∧
           column res.2 = tok_column tok + String.length (tok_value tok))
    | Raise e =>
        err_line e = line res.2 ∧
        (err_message e = "Unterminated block comment" ∨
         err_message e = "Invalid float literal" ∨
         ∃ c, err_message e = "Unexpected character: " +:+ String c "")
    end.
Proof.
  induction 1 as [self E|self rest res E _ IH|self rest u self1 res E B _ IH
                 |self rest e self1 E B|self char rest E N1 N2];
    destruct (skip_whitespace_tracks self) as (ws & Tws & Hws & Pws).
  - exists ws. split; [done|]. simpl. exists ws.
    rewrite str_app_nil_r.
    split_and!; [done|by apply insignificant_only_spaces|done..|].
    intros _. split; [by rewrite Pws|simpl; lia].
  - destruct (skip_line_comment_tracks _ _ E) as (body & T & Hb & Le & _ & _).
    destruct IH as (txt' & T' & O).
    exists (ws +:+ ("//" +:+ body) +:+ txt'). split.
    { apply (tracks_trans _ _ _ _ _ Tws), (tracks_trans _ _ _ _ _ T), T'. }
    destruct res as [[tok|e] self']; [|done]. simpl in *.
    destruct O as (gap & -> & Ig & Nn & Sp & Em & Ln & _).
    exists (ws +:+ "//" +:+ body +:+ gap).
    split_and!; [by rewrite !str_app_assoc| |done..|].
    + apply (insignificant_spaces _ _ Hws), ins_line_comment; [done| |done].
      destruct T' as ((_ & _ & R) & _).
      apply (line_end_gap _ _ _ _ Le R Sp Em).
    + rewrite !str_app_cons, str_app_nil_l, str_forall_isspace_slash. done.
  - destruct (skip_block_comment_tracks _ _ _ _ E B) as (body & Hb & _ & _ & T).
    destruct IH as (txt' & T' & O).
    exists (ws +:+ ("/*" +:+ body +:+ "*/") +:+ txt'). split.
    { apply (tracks_trans _ _ _ _ _ Tws), (tracks_trans _ _ _ _ _ T), T'. }
    destruct res as [[tok|e] self']; [|done]. simpl in *.
    destruct O as (gap & -> & Ig & Nn & Sp & Em & Ln & _).
    exists (ws +:+ "/*" +:+ body +:+ "*/" +:+ gap).
    split_and!; [by rewrite !str_app_assoc| |done..|].
    + by apply (insignificant_spaces _ _ Hws), ins_block_comment.
    + rewrite !str_app_cons, str_app_nil_l, str_forall_isspace_slash. done.
  - destruct (skip_block_comment_tracks _ _ _ _ E B)
      as (body & Hb & _ & _ & T & ->).
    exists (ws +:+ "/*" +:+ body). split.
    { apply (tracks_trans _ _ _ _ _ Tws), T. }
    simpl. split; [done|by left].
  - pose proof (skip_whitespace_next _ _ _ E) as Sp.
    destruct (scan_token char rest (skip_whitespace self)) as [o self'] eqn:S.
    destruct (scan_token_tracks _ _ _ _ _ E Sp S) as (txt & T & Nn & Ln & Cl & O).
    exists (ws +:+ String char txt). split.
    { apply (tracks_trans _ _ _ _ _ Tws), T. }
    simpl. destruct o as [tok|e].
    + destruct O as (V & TL & TC). exists ws. rewrite V.
      split_and!; [done|by apply insignificant_only_spaces
                  |done|done|done|congruence|].
      intros _. rewrite <- Pws, TL, TC. split; [done|]. by rewrite Cl.
    + destruct O as (EL & _ & [M|M]); (split; [congruence|]);
        [right; by left|right; right; by eexists].
Qed.

(** [next_token] with the facts of [next_token_spec_tracks]. *)
Lemma next_token_tracks self o self' :
  next_token self = Some (o, self') →
  ∃ txt, tracks txt self self' ∧
    match o with
    | Return tok =>
        ∃ gap, txt = gap +:+ tok_value tok ∧ insignificant gap ∧
          str_forall not_newline (tok_value tok) = true ∧
          next_is isspace (tok_value tok) = false ∧
          (tok_value tok = "" → remaining self' = "") ∧
          tok_line tok = line self' ∧
          (str_forall isspace gap = true →
           (tok_line tok, tok_column tok) =
             line_column_from (line self) (column self) gap ∧
           column self' = tok_column tok + String.length (tok_value tok))
    | Raise e =>
        err_line e = line self' ∧
        (err_message e = "Unterminated block comment" ∨
         err_message e = "Invalid float literal" ∨
         ∃ c, err_message e = "Unexpected character: " +:+ String c "")
    end.
Proof.
  intros H%next_token_spec_intro. apply (next_token_spec_tracks _ _ H).
Qed.

Lemma line_column_from_line_le l c s : l ≤ (line_column_from l c s).1.
Proof.
  revert l c. induction s as [|a s IH]; intros l c; simpl; [done|].
  destruct (Ascii.eqb a newline); [|apply IH].
  etrans; [|apply IH]. lia.
Qed.

(** X7. A call of [next_token] never moves the cursor backwards or past
    the end of the source, never lowers the line, and touches neither the
    source nor the collected tokens: the position grows by the length of
    the text read, whatever the call returns or raises. *)
Theorem cursor_stays_in_source self o self' :
  next_token self = Some (o, self') →
  source self' = source self ∧ tokens self' = tokens self ∧
  position self ≤ position self' ∧
  (position self ≤ String.length (source self) →
   position self' ≤ String.length (source self)) ∧
  line self ≤ line self'.
Proof.
  intros (txt & T & _)%next_token_tracks.
  destruct (tracks_position _ _ _ T) as [P1 P2].
  destruct T as ((S & Tk & _) & _ & L).
  split_and!; [done..|]. rewrite L. apply line_column_from_line_le.
Qed.

Lemma cursor_stays_in_source_witness :
  let self := advance 2 (LexicalAnalyzer_init "a /*") in
  ∃ o self',
    next_token self = Some (o, self') ∧
    position self ≤ position self' ∧ position self' ≤ 4.
Proof.
  destruct (next_token (advance 2 (LexicalAnalyzer_init "a /*")))
    as [[o self']|] eqn:H; [|by vm_compute in H].
  exists o, self'. split; [done|].
  destruct (cursor_stays_in_source _ _ _ H) as (_ & _ & P1 & P2 & _).
  split; [exact P1|]. apply P2. vm_compute. lia.
Defined.

(** X8. The [LexicalError]s of the scanner are of three kinds. Under
    every recursion limit, a [LexicalError] raised by [next_token], or by
    a full scan, has the message of an unterminated block comment, of an
    invalid float literal, or of an unexpected character, which it names;
    its line is the line the scanner is left on. *)
Theorem lexical_error_kinds depth self e self' :
  next_token_fuel depth self = Some (Raise e, self') ∨
  analyze_limit depth self = Some (Completed (Raise e, self')) →
  (err_message e = "Unterminated block comment" ∨
   err_message e = "Invalid float literal" ∨
   ∃ c, err_message e = "Unexpected character: " +:+ String c "") ∧
  err_line e = line self'.
Proof.
  intros [H|[self0 H]%analyze_limit_fuel_raise];
    apply next_token_fuel_agrees, next_token_tracks in H
      as (txt & _ & L & M); by split.
Qed.

Lemma lexical_error_kinds_witness :
  ∃ e self',
    analyze_limit recursion_limit
      (LexicalAnalyzer_init ("x = " +:+ String newline "  1.;")) =
      Some (Completed (Raise e, self')) ∧
    (err_message e = "Unterminated block comment" ∨
     err_message e = "Invalid float literal" ∨
     ∃ c, err_message e = "Unexpected character: " +:+ String c "") ∧
    err_line e = line self'.
Proof.
  eexists _, _. split; [vm_compute; reflexivity|].
  apply (lexical_error_kinds recursion_limit
           (LexicalAnalyzer_init ("x = " +:+ String newline "  1.;"))).
  right. vm_compute. reflexivity.
Defined.

Lemma analyze_limit_fuel_mono depth depth' fuel self res :
  analyze_limit_fuel depth fuel self = Some (Completed res) →
  depth ≤ depth' →
  analyze_limit_fuel depth' fuel self = Some (Completed res).
Proof.
  intros H Hd. revert self H. induction fuel as [|fuel IH]; intros self; [done|].
  cbn [analyze_limit_fuel].
  destruct (next_token_fuel depth self) as [[[tok|e] self1]|] eqn:N; [| |done];
    rewrite (next_token_fuel_mono _ _ _ _ N Hd); [|done].
  destruct (decide (tok_type tok = EOF)); [done|apply IH].
Qed.

(** X17. The recursion limit only cuts a call off. What [next_token] or
    a full scan returns, or the [LexicalError] it raises, with room for
    [depth] nested calls is what it comes to with room for more and on a
    call stack deep enough; and with room for more nested calls than
    there are characters left to read, the limit is not hit. *)
Theorem recursion_limit_only_cuts_off depth self :
  (∀ res, next_token_fuel depth self = Some res →
     next_token self = Some res ∧
     ∀ depth', depth ≤ depth' → next_token_fuel depth' self = Some res) ∧
  (∀ res, analyze_limit depth self = Some (Completed res) →
     analyze self = Some res ∧
     ∀ depth', depth ≤ depth' →
       analyze_limit depth' self = Some (Completed res)) ∧
  (String.length (remaining self) < depth →
     next_token_fuel depth self = next_token self ∧
     analyze_limit depth self = Completed <$> analyze self).
Proof.
  split_and!.
  - intros res H. split; [apply (next_token_fuel_agrees _ _ _ H)|].
    intros depth' Hd. apply (next_token_fuel_mono _ _ _ _ H Hd).
  - intros res H. split; [apply (analyze_limit_fuel_agrees _ _ _ _ H)|].
    intros depth' Hd. apply (analyze_limit_fuel_mono _ _ _ _ _ H Hd).
  - intros Hd. split; [apply (next_token_fuel_enough _ _ Hd)|].
    apply (analyze_limit_fuel_enough _ _ _ Hd).
Qed.

Lemma recursion_limit_only_cuts_off_witness :
  let self := LexicalAnalyzer_init "/**//**/x" in
  ∃ res,
    next_token_fuel 2 self = None ∧
    next_token_fuel 3 self = Some res ∧
    next_token self = Some res ∧
    next_token_fuel recursion_limit self = Some res ∧
    res.1 = Return (mkToken IDENTIFIER "x" 1 1).
Proof.
  destruct (next_token_fuel 3 (LexicalAnalyzer_init "/**//**/x"))
    as [res|] eqn:H; [|by vm_compute in H].
  destruct (recursion_limit_only_cuts_off 3
              (LexicalAnalyzer_init "/**//**/x")) as (A & _ & _).
  destruct (A res H) as [N M].
  exists res. split; [reflexivity|]. split; [exact H|].
  split; [exact N|]. split; [apply (M recursion_limit); vm_compute; lia|].
  vm_compute in H. by injection H as <-.
Defined.

(** ** A full scan, with its positions *)

Section lexed_scan.

Variable gap_ok : string → Prop.
Variable at_ok : nat * nat → Token → Prop.
Variable Inv : nat * nat → LexicalAnalyzer → Prop.

Hypothesis Inv_tokens :
  ∀ pos self ts, Inv pos self → Inv pos (set_tokens self ts).

Hypothesis Inv_step :
  ∀ pos self tok self',
    Inv pos self → next_token self = Some (Return tok, self') →
    ∃ gap,
      remaining self = (gap +:+ tok_value tok) +:+ remaining self' ∧
      gap_ok gap ∧ at_ok (position_after pos gap) tok ∧
      Inv (position_after pos (gap +:+ tok_value tok)) self'.

Lemma analyze_fuel_lexed fuel pos self toks self' :
  Inv pos self →
  analyze_fuel fuel self = Some (Return toks, self') →
  ∃ new, toks = tokens self ++ new ∧
         lexed gap_ok at_ok pos (remaining self) new.
Proof.
  revert pos self. induction fuel as [|fuel IH]; intros pos self I; [done|].
  cbn [analyze_fuel].
  destruct (next_token self) as [[[tok|e] self1]|] eqn:N; [|done..].
  destruct (Inv_step _ _ _ _ I N) as (gap & R & G & A & I1).
  destruct (next_token_reads _ _ _ N) as (sk & lx & (_ & Tk & _) & _ & T).
  destruct (T tok eq_refl) as (_ & Eo & _).
  destruct (decide (tok_type tok = EOF)) as [Ty|Ty].
  - intros [= <- <-]. exists [tok]. simpl. rewrite Tk. split; [done|].
    destruct (Eo Ty) as [_ Em]. rewrite R, Em, str_app_assoc.
    apply lexed_cons; [done..|apply lexed_nil].
  - intros H.
    destruct (IH _ _ (Inv_tokens _ _ _ I1) H) as (new & -> & L).
    exists (tok :: new). simpl. rewrite Tk, <- app_assoc. split; [done|].
    rewrite R, str_app_assoc. by apply lexed_cons.
Qed.

End lexed_scan.

Lemma line_column_from_app_plain l c g v :
  str_forall not_newline v = true →
  line_column_from l c (g +:+ v) =
  ((line_column_from l c g).1, (line_column_from l c g).2 + String.length v).
Proof.
  intros H. by rewrite line_column_from_app, line_column_from_plain.
Qed.

(** X9. The tokens of a full scan account for the whole source, in
    order: the source is the lexemes of the returned tokens, each after a
    gap made of whitespace and comments only, with nothing left over; and
    the line of every token is the line of its first character, comments
    or not. *)
Theorem tokens_cover_source source toks self' :
  analyze (LexicalAnalyzer_init source) = Some (Return toks, self') →
  lexed insignificant (λ pos tok, tok_line tok = pos.1) (1, 1) source toks.
Proof.
  intros H.
  assert (Step : ∀ pos self tok self',
    line self = pos.1 → next_token self = Some (Return tok, self') →
    ∃ gap,
      remaining self = (gap +:+ tok_value tok) +:+ remaining self' ∧
      insignificant gap ∧ tok_line tok = (position_after pos gap).1 ∧
      line self' = (position_after pos (gap +:+ tok_value tok)).1).
  { clear. intros pos self tok self' I N.
    destruct (next_token_tracks _ _ _ N)
      as (txt & T & gap & -> & Ig & Nn & _ & _ & Ln & _).
    destruct T as ((_ & _ & R) & _ & L).
    exists gap. unfold position_after.
    rewrite line_column_from_app_plain in L by done. simpl in L.
    split_and!; [done|done| |].
    - rewrite Ln, L, I. apply line_column_from_line.
    - rewrite line_column_from_app_plain by done. simpl.
      rewrite L, I. apply line_column_from_line. }
  destruct (analyze_fuel_lexed insignificant (λ pos tok, tok_line tok = pos.1)
              (λ pos self, line self = pos.1) ltac:(done) Step
              (S (String.length source)) (1, 1) (LexicalAnalyzer_init source)
              toks self' eq_refl H) as (new & -> & L).
  exact L.
Qed.

Lemma tokens_cover_source_witness :
  ∃ toks self',
    analyze (LexicalAnalyzer_init ("a/**/" +:+ String newline "b")) =
      Some (Return toks, self') ∧
    lexed insignificant (λ pos tok, tok_line tok = pos.1) (1, 1)
      ("a/**/" +:+ String newline "b") toks.
Proof.
  eexists _, _. split; [vm_compute; reflexivity|].
  eapply tokens_cover_source. vm_compute. reflexivity.
Defined.

Lemma has_opener_app s t :
  has_opener (s +:+ t) = false → has_opener s = false ∧ has_opener t = false.
Proof.
  induction s as [|c s IH]; [done|]. rewrite str_app_cons.
  cbn [has_opener]. intros [C H]%orb_false_iff.
  destruct (IH H) as [Hs Ht]. split; [|done]. rewrite Hs, orb_false_r.
  destruct s as [|c' s]; [done|]. by rewrite str_app_cons in C.
Qed.

Lemma insignificant_no_opener gap :
  insignificant gap → has_opener gap = false →
  str_forall isspace gap = true.
Proof.
  induction 1 as [|c s Hc _ IH|body s _ _ _ _|body s _ _ _]; [done| |done..].
  cbn [has_opener]. intros [_ H]%orb_false_iff. simpl. by rewrite Hc, IH.
Qed.

(** X10. In a source with no comment opener ([//] or [/*]) every token
    of a full scan, the end-of-input token included, carries the line and
    the column of its first character, and the tokens are separated by
    whitespace only. *)
Theorem comment_free_positions source toks self' :
  has_opener source = false →
  analyze (LexicalAnalyzer_init source) = Some (Return toks, self') →
  lexed (λ gap, str_forall isspace gap = true)
        (λ pos tok, (tok_line tok, tok_column tok) = pos) (1, 1) source toks.
Proof.
  intros Ho H.
  assert (Step : ∀ pos self tok self',
    (line self, column self) = pos ∧ has_opener (remaining self) = false →
    next_token self = Some (Return tok, self') →
    ∃ gap,
      remaining self = (gap +:+ tok_value tok) +:+ remaining self' ∧
      str_forall isspace gap = true ∧
      (tok_line tok, tok_column tok) = position_after pos gap ∧
      ((line self', column self') =
         position_after pos (gap +:+ tok_value tok) ∧
       has_opener (remaining self') = false)).
  { clear. intros pos self tok self' [<- Ho] N.
    destruct (next_token_tracks _ _ _ N)
      as (txt & T & gap & -> & Ig & Nn & _ & _ & Ln & Cl).
    destruct T as ((_ & _ & R) & _ & _). rewrite R, str_app_assoc in Ho.
    destruct (has_opener_app _ _ Ho) as [Hg Hr].
    destruct (has_opener_app _ _ Hr) as [_ Hr'].
    pose proof (insignificant_no_opener _ Ig Hg) as Sp.
    destruct (Cl Sp) as [P C]. exists gap. unfold position_after. simpl.
    split_and!; [done..| |done].
    rewrite line_column_from_app_plain by done. rewrite <- P. simpl.
    by rewrite Ln, C. }
  destruct (analyze_fuel_lexed (λ gap, str_forall isspace gap = true)
              (λ pos tok, (tok_line tok, tok_column tok) = pos)
              (λ pos self, (line self, column self) = pos ∧
                           has_opener (remaining self) = false)
              ltac:(done) Step
              (S (String.length source)) (1, 1) (LexicalAnalyzer_init source)
              toks self' (conj eq_refl Ho) H)
    as (new & -> & L).
  exact L.
Qed.

Lemma comment_free_positions_witness :
  ∃ toks self',
    analyze (LexicalAnalyzer_init ("x" +:+ String newline " =1")) =
      Some (Return toks, self') ∧
    lexed (λ gap, str_forall isspace gap = true)
          (λ pos tok, (tok_line tok, tok_column tok) = pos) (1, 1)
          ("x" +:+ String newline " =1") toks.
Proof.
  eexists _, _. split; [vm_compute; reflexivity|].
  eapply comment_free_positions; [reflexivity|]. vm_compute. reflexivity.
Defined.

(** X11. A full scan collects at most one token more than it reads
    characters: the tokens collected and the characters left unread are
    together at most the tokens and unread characters it started with,
    plus one, whether the scan returns or raises. *)
Theorem token_count_bound self r self' :
  analyze self = Some (r, self') →
  length (tokens self') + String.length (remaining self') ≤
  length (tokens self) + String.length (remaining self) + 1.
Proof.
  unfold analyze. generalize (S (String.length (remaining self))) as fuel.
  intros fuel. revert self.
  induction fuel as [|fuel IH]; intros self; [done|]. cbn [analyze_fuel].
  destruct (next_token self) as [[[tok|e] self1]|] eqn:N; [| |done].
  - destruct (next_token_reads _ _ _ N) as (sk & lx & R & _).
    pose proof (reads_length _ _ _ R) as Len. destruct R as (_ & Tk & _).
    destruct (decide (tok_type tok = EOF)) as [Ty|Ty].
    + intros [= <- <-]. simpl. rewrite length_app, Tk. simpl.
      change (remaining (set_tokens self1 _)) with (remaining self1). lia.
    + intros H%IH. simpl in H. rewrite length_app, Tk in H. simpl in H.
      change (remaining (set_tokens self1 _)) with (remaining self1) in H.
      pose proof (next_token_progress _ _ _ N Ty). lia.
  - intros [= <- <-].
    destruct (next_token_reads _ _ _ N) as (sk & lx & R & _).
    pose proof (reads_length _ _ _ R) as Len. destruct R as (_ & Tk & _).
    rewrite Tk. lia.
Qed.

Lemma token_count_bound_witness :
  ∃ r self',
    analyze (LexicalAnalyzer_init "a+b;") = Some (r, self') ∧
    length (tokens self') + String.length (remaining self') ≤ 0 + 4 + 1.
Proof.
  destruct (analyze (LexicalAnalyzer_init "a+b;")) as [[r self']|] eqn:H;
    [|by vm_compute in H].
  exists r, self'. split; [done|]. apply (token_count_bound _ _ _ H).
Defined.

(** X12. The collected tokens are kept from one full scan to the next: a
    second call of [analyze] on an analyzer whose scan has returned reads
    nothing and returns the same list with one more end-of-input token
    at its end. *)
Theorem analyze_again_appends_eof self toks self' :
  analyze self = Some (Return toks, self') →
  let eof := mkToken EOF "" (line self') (column self') in
  analyze self' = Some (Return (toks ++ [eof]), set_tokens self' (toks ++ [eof])).
Proof.
  intros H eof.
  destruct (analyze_fuel_spec _ _ _ _ H) as (new & _ & _ & _ & _ & R).
  destruct (R toks eq_refl) as (-> & Em & _).
  apply (analyze_eof _ _ _ (next_token_at_end _ Em) eq_refl).
Qed.

Lemma analyze_again_appends_eof_witness :
  ∃ toks self' self'',
    analyze (LexicalAnalyzer_init "a") = Some (Return toks, self') ∧
    analyze self' = Some (Return (toks ++ [mkToken EOF "" 1 2]), self'') ∧
    length (filter (λ tok, tok_type tok = EOF) (toks ++ [mkToken EOF "" 1 2]))
    = 2.
Proof.
  eexists _, _, _. split; [vm_compute; reflexivity|]. split.
  - refine (analyze_again_appends_eof (LexicalAnalyzer_init "a") _ _ _).
    vm_compute. reflexivity.
  - reflexivity.
Defined.

(** ** Block comments *)

Lemma skip_block_comment_loop_positions body tail self :
  remaining self = body +:+ "*/" +:+ tail →
  has_close body = false →
  ∃ self', skip_block_comment_loop (body +:+ "*/" +:+ tail) self
             = (Return (), self') ∧
    remaining self' = tail ∧
    position self' = position self + String.length body + 2 ∧
    (line self', column self') =
      line_column_from (line self) (column self) body.
Proof.
  revert self. induction body as [|c body IH]; intros self E Hb.
  - rewrite str_app_nil_l in *. eexists. split; [reflexivity|].
    split_and!; [by apply (remaining_next2 _ _ _ _ _ E)|simpl; lia|done].
  - rewrite str_app_cons in *.
    destruct (has_close_cons _ _ Hb) as [Hb' Hc].
    destruct (IH _ (remaining_track _ _ _ E) Hb') as (self' & L & R & P & Q).
    exists self'. split_and!; [|done| |by rewrite Q, line_column_from_step].
    + rewrite <- L. clear L IH E.
      destruct body as [|c' body].
      * rewrite str_app_nil_l. simpl. change (Ascii.eqb "*" "/") with false.
        by rewrite andb_false_r.
      * rewrite str_app_cons. simpl. by rewrite (Hc c' body eq_refl).
    + rewrite P. unfold track. simpl. destruct (Ascii.eqb c newline); simpl; lia.
Qed.

(** X13. A closed block comment is skipped whole, and its delimiters are
    not counted in the column. When the text under the cursor is [/*], a
    text without [*/], and [*/], [skip_block_comment] returns with the
    cursor just after the closer, and with the line and column that
    tracking the text between the delimiters alone gives: the line is the
    line of the character after the comment, and the column is short of
    that character's column by 4 when the comment is on one line and by 2
    when it spans lines. *)
Theorem block_comment_column_offset self body rest :
  remaining self = "/*" +:+ body +:+ "*/" +:+ rest →
  has_close body = false →
  ∃ self',
    skip_block_comment self = (Return (), self') ∧
    remaining self' = rest ∧
    position self' = position self + String.length body + 4 ∧
    (line self', column self') =
      line_column_from (line self) (column self) body ∧
    line_column_from (line self) (column self) ("/*" +:+ body +:+ "*/") =
      (line self',
       column self' + if str_forall not_newline body then 4 else 2).
Proof.
  intros E Hb. unfold skip_block_comment.
  set (self1 := set_position self (position self + 2)).
  assert (E1 : remaining self1 = body +:+ "*/" +:+ rest)
    by by apply (remaining_next2 _ _ _ _ _ E).
  rewrite E1.
  destruct (skip_block_comment_loop_positions body rest self1 E1 Hb)
    as (self' & L & R & P & Q).
  exists self'. simpl in P, Q. split_and!; [done|done|lia|done|].
  rewrite !str_app_cons, str_app_nil_l. cbn [line_column_from].
  change (Ascii.eqb "/" newline) with false.
  change (Ascii.eqb "*" newline) with false. cbv iota.
  rewrite line_column_from_app_plain by done. simpl.
  destruct (str_forall not_newline body) eqn:Nl.
  - rewrite (line_column_from_plain _ _ _ Nl) in Q.
    rewrite (line_column_from_plain _ _ _ Nl).
    injection Q as -> ->. simpl. f_equal. lia.
  - by rewrite (line_column_from_newline _ _ (column self) _ Nl), <- Q.
Qed.

Lemma block_comment_column_offset_witness :
  let self := LexicalAnalyzer_init ("/*a" +:+ String newline "b*/c") in
  let body := "a" +:+ String newline "b" in
  ∃ self',
    skip_block_comment self = (Return (), self') ∧
    remaining self' = "c" ∧
    position self' = position self + String.length body + 4 ∧
    (line self', column self') =
      line_column_from (line self) (column self) body ∧
    line_column_from (line self) (column self) ("/*" +:+ body +:+ "*/") =
      (line self',
       column self' + if str_forall not_newline body then 4 else 2).
Proof.
  apply (block_comment_column_offset
           (LexicalAnalyzer_init ("/*a" +:+ String newline "b*/c"))
           ("a" +:+ String newline "b") "c"); reflexivity.
Defined.

(** ** Kinds and lexemes *)

Lemma scan_number_loop_float rest number is_float self number' is_float' self' :
  scan_number_loop rest number is_float self = (number', is_float', self') →
  ∃ txt, number' = number +:+ txt ∧ is_float' = is_float || has_dot txt.
Proof.
  revert number is_float self.
  induction rest as [|c rest IH]; intros number is_float self; simpl.
  { intros [= <- <- <-]. exists "". by rewrite str_app_nil_r, orb_false_r. }
  destruct (isdigit c) eqn:D.
  { intros (txt & -> & ->)%IH. exists (String c txt).
    split; [by rewrite str_app_assoc|]. simpl.
    by rewrite (isdigit_not_dot _ D). }
  destruct (Ascii.eqb c "." && negb is_float) eqn:Dot.
  { intros (txt & -> & ->)%IH. exists (String c txt).
    split; [by rewrite str_app_assoc|]. simpl.
    apply andb_true_iff in Dot as [-> _]. by rewrite orb_true_r. }
  intros [= <- <- <-]. exists "". by rewrite str_app_nil_r, orb_false_r.
Qed.

Lemma OPERATORS_keys k t :
  dict_get OPERATORS k = Some t → ∃ c c', k = String c (String c' "").
Proof.
  intros H%dict_get_In. unfold OPERATORS in H. simpl in H.
  destruct_or!; simplify_eq; by eexists _, _.
Qed.

Lemma scan_token_kind_of_lexeme char rest self tok self' :
  remaining self = String char rest →
  scan_token char rest self = (Return tok, self') →
  kind_of_lexeme (tok_value tok) = Some (tok_type tok).
Proof.
  intros E. unfold scan_token. destruct (isdigit char) eqn:D.
  { unfold scan_number. rewrite E. simpl. rewrite D.
    destruct (scan_number_loop rest _ false (consume self))
      as [[number is_float] self1] eqn:L.
    apply scan_number_loop_float in L as (txt & -> & ->).
    change (("" +:+ String char "") +:+ txt) with (String char txt).
    simpl (false || _).
    assert (K : ∀ t l c,
      t = (if has_dot txt then FLOAT_LIT else INT_LIT) →
      kind_of_lexeme (tok_value (mkToken t (String char txt) l c))
      = Some (tok_type (mkToken t (String char txt) l c))).
    { intros t l c ->. simpl. rewrite D. by rewrite (isdigit_not_dot _ D). }
    destruct (has_dot txt); [destruct (endswith _ _)|];
      intros [= <- <-]; by apply K. }
  destruct (isalpha char || Ascii.eqb char "_") eqn:A.
  { intros S. pose proof (scan_identifier_kind _ _ _ S) as K.
    destruct (scan_identifier_reads _ _ _ _ _ E A S)
      as (txt & tok' & _ & [= <-] & (V & _) & _).
    rewrite K, V. simpl. by rewrite D, A. }
  assert (Single : single_character_token char self = (Return tok, self') →
                   kind_of_lexeme (tok_value tok) = Some (tok_type tok)).
  { unfold single_character_token.
    destruct (List.find _ _) as [t|] eqn:F; intros [= <- <-]. simpl.
    rewrite D, A, F.
    destruct (dict_get OPERATORS (String char "")) as [t'|] eqn:O; [|done].
    by apply OPERATORS_keys in O as (? & ? & ?). }
  destruct rest as [|char2 rest]; [done|].
  destruct (dict_get OPERATORS _) as [op_type|] eqn:O; [|done].
  intros [= <- <-]. simpl. by rewrite D, A, O.
Qed.

Lemma next_token_kind_of_lexeme self tok self' :
  next_token self = Some (Return tok, self') →
  kind_of_lexeme (tok_value tok) = Some (tok_type tok).
Proof.
  intros H%next_token_spec_intro.
  remember (Return tok, self') as res eqn:R.
  assert (G : ∀ tok, res.1 = Return tok →
              kind_of_lexeme (tok_value tok) = Some (tok_type tok));
    [|apply G; by subst res].
  clear R tok self'.
  induction H as [self E|self rest res E _ IH|self rest u self1 res E B _ IH
                 |self rest e self1 E B|self char rest E N1 N2];
    [|done|done|done|].
  - by intros tok [= <-].
  - destruct (scan_token char rest (skip_whitespace self)) as [o self'] eqn:S.
    intros tok Ho. simpl in Ho. subst o.
    apply (scan_token_kind_of_lexeme _ _ _ _ _ E S).
Qed.

(** X14. The kind of a token can be read off its lexeme. Every token that
    [next_token] returns has the kind that [kind_of_lexeme] gives for its
    text, so two tokens with the same lexeme, from whatever sources, have
    the same kind. *)
Theorem lexeme_determines_kind self tok self' :
  next_token self = Some (Return tok, self') →
  kind_of_lexeme (tok_value tok) = Some (tok_type tok) ∧
  ∀ other tok' other',
    next_token other = Some (Return tok', other') →
    tok_value tok' = tok_value tok → tok_type tok' = tok_type tok.
Proof.
  intros H%next_token_kind_of_lexeme. split; [done|].
  intros other tok' other' H'%next_token_kind_of_lexeme V.
  rewrite V in H'. congruence.
Qed.

Lemma lexeme_determines_kind_witness :
  kind_of_lexeme "3.25" = Some FLOAT_LIT ∧
  kind_of_lexeme "while" = Some WHILE ∧
  kind_of_lexeme "whiles" = Some IDENTIFIER.
Proof.
  split_and!.
  - apply (lexeme_determines_kind (LexicalAnalyzer_init "3.25")
             (mkToken FLOAT_LIT "3.25" 1 1)
             (advance 4 (LexicalAnalyzer_init "3.25"))).
    reflexivity.
  - apply (lexeme_determines_kind (LexicalAnalyzer_init "while")
             (mkToken WHILE "while" 1 1)
             (advance 5 (LexicalAnalyzer_init "while"))).
    reflexivity.
  - apply (lexeme_determines_kind (LexicalAnalyzer_init "whiles")
             (mkToken IDENTIFIER "whiles" 1 1)
             (set_symbol_table (advance 6 (LexicalAnalyzer_init "whiles"))
                (SymbolTable.insert
                   (symbol_table (LexicalAnalyzer_init "whiles")) "whiles"
                   (SymbolInfo_init "whiles" "unknown")))).
    reflexivity.
Defined.

Lemma KEYWORDS_not_literal k t :
  dict_get KEYWORDS k = Some t → t ≠ INT_LIT ∧ t ≠ FLOAT_LIT.
Proof.
  intros H%dict_get_In. unfold KEYWORDS in H. simpl in H.
  destruct_or!; by simplify_eq.
Qed.

Lemma OPERATORS_not_literal k t :
  dict_get OPERATORS k = Some t → t ≠ INT_LIT ∧ t ≠ FLOAT_LIT.
Proof.
  intros H%dict_get_In. unfold OPERATORS in H. simpl in H.
  destruct_or!; by simplify_eq.
Qed.

Lemma kind_of_lexeme_literal s t :
  kind_of_lexeme s = Some t → t = INT_LIT ∨ t = FLOAT_LIT →
  ∃ c r, s = String c r ∧ isdigit c = true.
Proof.
  destruct s as [|c r]; unfold kind_of_lexeme.
  { intros [= <-] [|]; done. }
  destruct (isdigit c) eqn:D; [by eauto|].
  destruct (isalpha c || Ascii.eqb c "_") eqn:A.
  { destruct (dict_get KEYWORDS _) as [kw|] eqn:K; intros [= <-]; simpl.
    - destruct (KEYWORDS_not_literal _ _ K). by intros [|].
    - by intros [|]. }
  destruct (dict_get OPERATORS _) as [op|] eqn:O.
  { intros [= <-]. destruct (OPERATORS_not_literal _ _ O). by intros [|]. }
  intros [_ F%String.eqb_eq]%List.find_some [-> | ->];
    simpl in F; injection F as <- _; by vm_compute in A.
Qed.

Lemma scan_number_shape self c r tok self' :
  remaining self = String c r → isdigit c = true →
  scan_number self = (Return tok, self') →
  (tok_type tok = INT_LIT →
   tok_value tok ≠ "" ∧ str_forall isdigit (tok_value tok) = true) ∧
  (tok_type tok = FLOAT_LIT →
   ∃ ds ds2, tok_value tok = ds +:+ "." +:+ ds2 ∧ ds ≠ "" ∧ ds2 ≠ "" ∧
     str_forall isdigit ds = true ∧ str_forall isdigit ds2 = true).
Proof.
  intros E D S.
  destruct (numeric_literal_shapes c r D)
    as (ds & Hne & Hd & [(rest & Er & Hr)|[(rest & Er & Hr)
                                          |(ds2 & rest & Er & N2 & Hd2 & Hr)]]);
    rewrite Er in E.
  - rewrite (scan_number_trailing_dot _ _ _ E Hd Hr) in S. done.
  - rewrite (scan_number_int _ _ _ E Hd Hr) in S. injection S as <- _.
    by split.
  - rewrite (scan_number_float _ _ _ _ E Hd N2 Hd2 Hr) in S.
    injection S as <- _. split; [done|]. intros _. by exists ds, ds2.
Qed.

(** X15. The literals are well formed. The lexeme of an integer literal
    token that [next_token] returns is one digit or more and nothing
    else; the lexeme of a floating literal token is digits, one [.] and
    digits, with at least one digit on each side of the [.]. *)
Theorem literal_lexemes_well_formed self tok self' :
  next_token self = Some (Return tok, self') →
  (tok_type tok = INT_LIT →
   tok_value tok ≠ "" ∧ str_forall isdigit (tok_value tok) = true) ∧
  (tok_type tok = FLOAT_LIT →
   ∃ ds ds2, tok_value tok = ds +:+ "." +:+ ds2 ∧ ds ≠ "" ∧ ds2 ≠ "" ∧
     str_forall isdigit ds = true ∧ str_forall isdigit ds2 = true).
Proof.
  intros H. pose proof (next_token_kind_of_lexeme _ _ _ H) as K.
  apply next_token_spec_intro in H.
  remember (Return tok, self') as res eqn:R.
  assert (G : ∀ o self', res = (o, self') → o = Return tok →
    (tok_type tok = INT_LIT ∨ tok_type tok = FLOAT_LIT) →
    ∃ self0 c r, remaining self0 = String c r ∧ isdigit c = true ∧
                 scan_number self0 = (Return tok, self')).
  { clear R self'.
    induction H as [self E|self rest res E _ IH|self rest u self1 res E B _ IH
                   |self rest e self1 E B|self char rest E N1 N2];
      intros o self' R Ho Ty; [| by eapply IH | by eapply IH | |].
    - simplify_eq. simpl in Ty. by destruct Ty.
    - simplify_eq.
    - subst o.
      destruct (kind_of_lexeme_literal _ _ K Ty) as (c & r & V & D).
      destruct (scan_token_reads _ _ _ _ _ E R) as (txt & _ & _ & T).
      destruct (T tok eq_refl) as ((V' & _) & _).
      rewrite V in V'. injection V' as -> ->.
      exists (skip_whitespace self), char, rest. split_and!; [done..|].
      unfold scan_token in R. by rewrite D in R. }
  split; intros Ty.
  - destruct (G _ _ R eq_refl (or_introl Ty)) as (self0 & c & r & E & D & S).
    by apply (scan_number_shape _ _ _ _ _ E D S).
  - destruct (G _ _ R eq_refl (or_intror Ty)) as (self0 & c & r & E & D & S).
    by apply (scan_number_shape _ _ _ _ _ E D S).
Qed.

Lemma literal_lexemes_well_formed_witness :
  ∃ ds ds2, "12.5" = ds +:+ "." +:+ ds2 ∧ ds ≠ "" ∧ ds2 ≠ "" ∧
    str_forall isdigit ds = true ∧ str_forall isdigit ds2 = true.
Proof.
  apply (proj2 (literal_lexemes_well_formed (LexicalAnalyzer_init "12.5;")
                  (mkToken FLOAT_LIT "12.5" 1 1)
                  (advance 4 (LexicalAnalyzer_init "12.5;")) eq_refl)).
  reflexivity.
Defined.

(** ** A scan that raises *)

(** X16. When a full scan raises, the tokens returned before the error
    stay collected in the analyzer, after those it held, none of them is
    the end-of-input token, and the symbol table is the one these tokens
    register. *)
Theorem tokens_before_error self e self' :
  analyze self = Some (Raise e, self') →
  ∃ new, tokens self' = tokens self ++ new ∧
    Forall (λ tok, tok_type tok ≠ EOF) new ∧
    symbol_table self' = registered (symbol_table self) new.
Proof.
  unfold analyze. generalize (S (String.length (remaining self))) as fuel.
  intros fuel. revert self.
  induction fuel as [|fuel IH]; intros self; [done|]. cbn [analyze_fuel].
  destruct (next_token self) as [[[tok|e'] self1]|] eqn:N; [| |done].
  - destruct (next_token_reads _ _ _ N) as (sk & lx & (_ & Tk & _) & ST & _).
    destruct (decide (tok_type tok = EOF)) as [Ty|Ty]; [done|].
    intros (new & Tn & Fn & STn)%IH. simpl in Tn, STn.
    exists (tok :: new). rewrite Tn, Tk, <- app_assoc.
    split_and!; [done|by constructor|by rewrite STn, ST].
  - intros [= <- <-].
    destruct (next_token_reads _ _ _ N) as (sk & lx & (_ & Tk & _) & ST & _).
    exists []. rewrite app_nil_r. by split_and!.
Qed.

Lemma tokens_before_error_witness :
  ∃ e self',
    analyze (LexicalAnalyzer_init "int x = @;") = Some (Raise e, self') ∧
    ∃ new, tokens self' = [] ++ new ∧
      Forall (λ tok, tok_type tok ≠ EOF) new ∧
      symbol_table self' =
        registered (symbol_table (LexicalAnalyzer_init "int x = @;")) new.
Proof.
  eexists _, _. split; [vm_compute; reflexivity|].
  eapply (tokens_before_error (LexicalAnalyzer_init "int x = @;")).
  vm_compute. reflexivity.
Defined.
